(** * ChatScreen: the conversation feed subscriber and the message submission path

  A shallow embedding of [src/ChatScreen.js]: the [onSnapshot] callback
  (map, filter, sort, [setMessages]), the [onSend] callback, the send
  button of [renderSend] and the subscription [useEffect], together with
  the part of the JavaScript value semantics these functions rely on. *)

Set Warnings "-register-all".
From Stdlib Require Import ZArith List String Ascii Bool Lia.
From Stdlib Require Import Permutation Sorting.Sorted.
Import ListNotations.

Local Open Scope string_scope.
Local Open Scope Z_scope.

(* ================================================================== *)
(** ** JavaScript values *)
(* ================================================================== *)

Module JS.

(** Host functions that can be met as property values.  Firestore data
    never contains functions; the only callable the screen touches is the
    [toDate] method of a Firestore [Timestamp]. *)
Inductive native : Type :=
| Timestamp_toDate (ms : Z).

(** The values a Firestore document, a GiftedChat message or a piece of
    component state can hold.  Numbers are kept as integers (only their
    truthiness is ever observed here); a [Timestamp] carries the
    millisecond reading its [toDate()] produces; a [Date] carries its time
    value in milliseconds.  Objects keep their own properties in insertion
    order. *)
Inductive val : Type :=
| JUndefined
| JNull
| JBool (b : bool)
| JNum (n : Z)
| JStr (s : string)
| JTimestamp (ms : Z)
| JDate (ms : Z)
| JFun (f : native)
| JArr (items : list val)
| JObj (props : list (string * val)).

Definition obj : Type := list (string * val).

Inductive exn : Type :=
| TypeError (what : string)
| FirestoreError (what : string).

Inductive result (A : Type) : Type :=
| Ok (a : A)
| Throw (e : exn).
Arguments Ok {A} a.
Arguments Throw {A} e.

(** ToBoolean. *)
Definition truthy (v : val) : bool :=
  match v with
  | JUndefined | JNull => false
  | JBool b => b
  | JNum n => negb (n =? 0)
  | JStr s => negb (s =? "")%string
  | _ => true
  end.

(** [a || b] *)
Definition or_else (a b : val) : val := if truthy a then a else b.

(** Own-property lookup [o[k]] on a property list. *)
Fixpoint lookup (k : string) (o : obj) : option val :=
  match o with
  | [] => None
  | (k', v) :: rest => if (k =? k')%string then Some v else lookup k rest
  end.

(** Property write [o[k] = v]: an existing key keeps its position, a new
    key is appended. *)
Fixpoint set (k : string) (v : val) (o : obj) : obj :=
  match o with
  | [] => [(k, v)]
  | (k', v') :: rest =>
      if (k =? k')%string then (k', v) :: rest else (k', v') :: set k v rest
  end.

(** Object spread [{...target, ...src}]: the properties of [src] are
    written onto [target] in order. *)
Definition spread (src target : obj) : obj :=
  fold_left (fun acc kv => set (fst kv) (snd kv) acc) src target.

(** [v?.k] for the property names this screen reads ([_id], [toDate],
    [user], [receiver], [createdAt], [text]): none of them lives on a
    built-in prototype except [Timestamp.prototype.toDate]. *)
Definition opt_member (v : val) (k : string) : val :=
  match v with
  | JObj props =>
      match lookup k props with Some x => x | None => JUndefined end
  | JTimestamp ms =>
      if (k =? "toDate")%string then JFun (Timestamp_toDate ms) else JUndefined
  | _ => JUndefined
  end.

(** [v.k]: as [v?.k], but reading from [undefined] or [null] throws. *)
Definition member (v : val) (k : string) : result val :=
  match v with
  | JUndefined | JNull => Throw (TypeError "cannot read properties of undefined")
  | _ => Ok (opt_member v k)
  end.

(** Calling a value with no arguments. *)
Definition call (f : val) : result val :=
  match f with
  | JFun (Timestamp_toDate ms) => Ok (JDate ms)
  | _ => Throw (TypeError "is not a function")
  end.

(** [a === b].  Primitives compare by value.  Objects, arrays, dates and
    timestamps compare by reference; the model has no references, and the
    screen only ever compares against a primitive string, where the answer
    for any object is [false]. *)
Definition strict_eq (a b : val) : bool :=
  match a, b with
  | JUndefined, JUndefined => true
  | JNull, JNull => true
  | JBool x, JBool y => Bool.eqb x y
  | JNum x, JNum y => (x =? y)
  | JStr x, JStr y => (x =? y)%string
  | _, _ => false
  end.

(** The time value of a [Date]. *)
Definition time_value (v : val) : option Z :=
  match v with
  | JDate ms => Some ms
  | _ => None
  end.

End JS.
Import JS.

(* ================================================================== *)
(** ** The snapshot callback of the subscription effect *)
(* ================================================================== *)

(** A document of a query snapshot: [doc.id] and [doc.data()]. *)
Record doc : Type := mkDoc {
  doc_id : string;
  doc_data : obj
}.

(** A message object as built by the callback. *)
Definition msg : Type := obj.

(** [m.k] on a value known to be an object. *)
Definition field (m : obj) (k : string) : val := opt_member (JObj m) k.

(** Computations that may read the clock and may throw.  [new Date()]
    reads the system clock: [tick n] is the reading the [n]-th read of a run
    returns, and the state threaded through is the number of reads made so
    far. *)
Definition Eff (A : Type) : Type := (nat -> Z) -> nat -> result (A * nat).

Definition ret {A} (a : A) : Eff A := fun _ n => Ok (a, n).

Definition bind {A B} (c : Eff A) (k : A -> Eff B) : Eff B :=
  fun tick n =>
    match c tick n with
    | Ok (a, n') => k a tick n'
    | Throw e => Throw e
    end.

Definition lift {A} (r : result A) : Eff A :=
  fun _ n =>
    match r with
    | Ok a => Ok (a, n)
    | Throw e => Throw e
    end.

Definition new_Date : Eff val := fun tick n => Ok (JDate (tick n), S n).

Notation "x <- c ;; k" := (bind c (fun x => k))
  (at level 61, c at next level, right associativity).

(** The test [doc.data().createdAt?.toDate]. *)
Definition has_toDate (data : obj) : bool :=
  truthy (opt_member (field data "createdAt") "toDate").

(** [doc.data().createdAt?.toDate ? doc.data().createdAt.toDate() : new Date()] *)
Definition createdAt_of (data : obj) : Eff val :=
  if has_toDate data
  then
    f <- lift (member (field data "createdAt") "toDate") ;;
    lift (call f)
  else new_Date.

(** The object literal [{ id: doc.id, ...doc.data(), createdAt: created }]. *)
Definition message_of (d : doc) (created : val) : msg :=
  set "createdAt" created (spread (doc_data d) (set "id" (JStr (doc_id d)) [])).

(** The function mapped over [snapshot.docs]. *)
Definition mapDoc (d : doc) : Eff msg :=
  created <- createdAt_of (doc_data d) ;;
  ret (message_of d created).

(** [snapshot.docs.map(doc => ...)] *)
Fixpoint allMessages (docs : list doc) : Eff (list msg) :=
  match docs with
  | [] => ret []
  | d :: rest =>
      m <- mapDoc d ;;
      ms <- allMessages rest ;;
      ret (m :: ms)
  end.

(** [msg.user?._id || msg.user], as a function of [msg.user]. *)
Definition sender_of (u : val) : val := or_else (opt_member u "_id") u.

Definition msgUser (m : msg) : val := sender_of (field m "user").

(** [msg.receiver] *)
Definition msgReceiver (m : msg) : val := field m "receiver".

(** The predicate passed to [allMessages.filter]; [user] and [receiver]
    are the state values captured by the effect's closure. *)
Definition in_conversation (user receiver : val) (m : msg) : bool :=
  (strict_eq (msgUser m) user && strict_eq (msgReceiver m) receiver)
  || (strict_eq (msgUser m) receiver && strict_eq (msgReceiver m) user).

Definition filteredMessages (user receiver : val) (all : list msg) : list msg :=
  filter (in_conversation user receiver) all.

(** The time value of [m.createdAt].  Every message built by [mapDoc]
    holds a [Date] there (lemma [mapDoc_createdAt]), so the default is
    never taken on a view. *)
Definition createdAt_ms (m : msg) : Z :=
  match time_value (field m "createdAt") with
  | Some ms => ms
  | None => 0
  end.

(** The comparator [(a, b) => b.createdAt - a.createdAt].  Both operands
    are dates with integral time values, so the sign of the floating
    point difference is the sign of the integer difference. *)
Definition compare_desc (a b : msg) : Z := createdAt_ms b - createdAt_ms a.

(** [Array.prototype.sort] is a stable sort; with a consistent comparator
    its result is the one stable insertion produces. *)
Fixpoint insert_desc (x : msg) (l : list msg) : list msg :=
  match l with
  | [] => [x]
  | y :: rest =>
      if compare_desc x y <=? 0 then x :: y :: rest
      else y :: insert_desc x rest
  end.

Fixpoint sort_desc (l : list msg) : list msg :=
  match l with
  | [] => []
  | x :: rest => insert_desc x (sort_desc rest)
  end.

(** The body of the [onSnapshot] success callback up to the argument of
    [setMessages]: filter, then sort in place. *)
Definition view_of (user receiver : val) (all : list msg) : list msg :=
  sort_desc (filteredMessages user receiver all).

Definition snapshot_view (user receiver : val) (docs : list doc)
  : Eff (list msg) :=
  all <- allMessages docs ;;
  ret (view_of user receiver all).

(** The result of a run without the count of clock reads. *)
Definition outcome {A} (r : result (A * nat)) : result A :=
  match r with
  | Ok (a, _) => Ok a
  | Throw e => Throw e
  end.

(** A document's data holds each key once. *)
Definition well_keyed (o : obj) : Prop := NoDup (map fst o).

(* ================================================================== *)
(** ** The document store as the screen sees it *)
(* ================================================================== *)

(** What the store keeps of a written value: a [Date] comes back as a
    [Timestamp], everything else as it was written. *)
Fixpoint to_firestore (v : val) : val :=
  match v with
  | JDate ms => JTimestamp ms
  | JArr items => JArr (map to_firestore items)
  | JObj props => JObj (map (fun kv => (fst kv, to_firestore (snd kv))) props)
  | _ => v
  end.

Definition stored (record : obj) : obj :=
  map (fun kv => (fst kv, to_firestore (snd kv))) record.

(** The client refuses a record that holds [undefined] or a function
    anywhere ([getFirestore] is used with its default settings). *)
Fixpoint storable (v : val) : bool :=
  match v with
  | JUndefined | JFun _ => false
  | JArr items => forallb storable items
  | JObj props => forallb (fun kv => storable (snd kv)) props
  | _ => true
  end.

(** How the backend answers a write that passed the client's checks. *)
Inductive store_reply : Type :=
| Accepted
| Rejected (e : exn).

(** Calls made on the store client, in order. *)
Inductive store_call : Type :=
| Subscribe (id : nat)
| Unsubscribe (id : nat)
| AddDoc (record : obj).

(** A registered [onSnapshot] listener with the state values its
    callbacks closed over. *)
Record listener : Type := mkListener {
  l_id : nat;
  l_user : val;
  l_receiver : val
}.

Inductive console_entry : Type :=
| ConsoleLog (text : string)
| ConsoleError (text : string) (err : option exn).

(* ================================================================== *)
(** ** The screen instance and its surroundings *)
(* ================================================================== *)

Record world : Type := mkWorld {
  messages : list msg;          (* useState([])   *)
  receiver : val;               (* useState(null) *)
  user : val;                   (* useState(null) *)
  cleanup : option nat;         (* cleanup kept by React for the subscription
                                   effect: [unsubscribe] of that listener *)
  listeners : list listener;    (* listeners registered in the store client *)
  next_listener : nat;
  chats : list obj;             (* documents of the 'chats' collection *)
  calls : list store_call;
  console : list console_entry;
  uncaught : list exn           (* exceptions that left a callback *)
}.

Definition initial : world :=
  mkWorld [] JNull JNull None [] 0%nat [] [] [] [].

Definition setMessages (view : list msg) (w : world) : world :=
  mkWorld view (receiver w) (user w) (cleanup w) (listeners w)
          (next_listener w) (chats w) (calls w) (console w) (uncaught w).

Definition set_pair (r u : val) (w : world) : world :=
  mkWorld (messages w) r u (cleanup w) (listeners w)
          (next_listener w) (chats w) (calls w) (console w) (uncaught w).

Definition set_cleanup (c : option nat) (w : world) : world :=
  mkWorld (messages w) (receiver w) (user w) c (listeners w)
          (next_listener w) (chats w) (calls w) (console w) (uncaught w).

Definition print (e : console_entry) (w : world) : world :=
  mkWorld (messages w) (receiver w) (user w) (cleanup w) (listeners w)
          (next_listener w) (chats w) (calls w) (console w ++ [e]) (uncaught w).

Definition escape (e : exn) (w : world) : world :=
  mkWorld (messages w) (receiver w) (user w) (cleanup w) (listeners w)
          (next_listener w) (chats w) (calls w) (console w) (uncaught w ++ [e]).

(** [onSnapshot(chatQuery, next, error)]: registers a listener and
    returns its handle. *)
Definition onSnapshot (w : world) : nat * world :=
  let id := next_listener w in
  (id,
   mkWorld (messages w) (receiver w) (user w) (cleanup w)
           (listeners w ++ [mkListener id (user w) (receiver w)])
           (S id) (chats w) (calls w ++ [Subscribe id]) (console w) (uncaught w)).

(** The handle returned by [onSnapshot]. *)
Definition unsubscribe (id : nat) (w : world) : world :=
  mkWorld (messages w) (receiver w) (user w) (cleanup w)
          (filter (fun l => negb (l_id l =? id)%nat) (listeners w))
          (next_listener w) (chats w) (calls w ++ [Unsubscribe id])
          (console w) (uncaught w).

(** The effect of lines 94-143, run with the state of the committed
    render; its return value is the cleanup React keeps. *)
Definition subscription_effect (w : world) : world :=
  if negb (truthy (receiver w)) || negb (truthy (user w))
  then set_cleanup None w
  else
    let (id, w') := onSnapshot w in
    set_cleanup (Some id) w'.

(** React runs the kept cleanup, if there is one, before the effect runs
    again and when the component unmounts. *)
Definition run_cleanup (w : world) : world :=
  match cleanup w with
  | Some id => set_cleanup None (unsubscribe id w)
  | None => w
  end.

Definition find_listener (id : nat) (w : world) : option listener :=
  find (fun l => (l_id l =? id)%nat) (listeners w).

(** The store delivers a snapshot to a listener: its success callback. *)
Definition on_snapshot (id : nat) (docs : list doc) (tick : nat -> Z)
    (w : world) : world :=
  match find_listener id w with
  | None => w
  | Some l =>
      match snapshot_view (l_user l) (l_receiver l) docs tick 0%nat with
      | Ok (view, _) => setMessages view w
      | Throw e => escape e w
      end
  end.

(** The store reports a failure to a listener: its error callback. *)
Definition on_snapshot_error (id : nat) (e : exn) (w : world) : world :=
  match find_listener id w with
  | None => w
  | Some _ => print (ConsoleError "Error fetching messages:" (Some e)) w
  end.

(* ================================================================== *)
(** ** The submission path *)
(* ================================================================== *)

(** [addDoc(collection(db, 'chats'), record)]: the call is made; a record
    the client cannot encode is refused on the spot, otherwise the backend
    answers.  The second component is the exception the awaited call
    raises, if any. *)
Definition encodable (record : obj) : bool :=
  forallb (fun kv => storable (snd kv)) record.

Definition addDoc (record : obj) (reply : store_reply) (w : world)
  : world * option exn :=
  let w1 :=
    mkWorld (messages w) (receiver w) (user w) (cleanup w) (listeners w)
            (next_listener w) (chats w) (calls w ++ [AddDoc record])
            (console w) (uncaught w) in
  if encodable record then
    match reply with
    | Accepted =>
        (mkWorld (messages w1) (receiver w1) (user w1) (cleanup w1)
                 (listeners w1) (next_listener w1)
                 (chats w1 ++ [stored record]) (calls w1)
                 (console w1) (uncaught w1), None)
    | Rejected e => (w1, Some e)
    end
  else (w1, Some (FirestoreError "unsupported field value")).

(** [const { _id, createdAt, text, user: messageUser } = v] *)
Definition destructure (v : val) : result (val * val * val * val) :=
  match v with
  | JUndefined | JNull => Throw (TypeError "cannot destructure")
  | _ => Ok (opt_member v "_id", opt_member v "createdAt",
             opt_member v "text", opt_member v "user")
  end.

(** The record literal handed to [addDoc]; [now] is what [new Date()]
    returns if it is evaluated. *)
Definition chat_record (_id createdAt text messageUser receiver : val)
    (now : Z) : obj :=
  [("_id", _id);
   ("createdAt", or_else createdAt (JDate now));
   ("text", text);
   ("user", messageUser);
   ("receiver", receiver)].

(** [onSend], lines 147-173. *)
Definition onSend (msgs : list val) (now : Z) (reply : store_reply)
    (w : world) : world :=
  if negb (truthy (receiver w)) || negb (truthy (user w)) then
    print (ConsoleError "Receiver or user not defined" None) w
  else
    match destructure (nth 0 msgs JUndefined) with
    | Throw e => print (ConsoleError "Error sending message:" (Some e)) w
    | Ok (_id, createdAt, text, messageUser) =>
        match addDoc (chat_record _id createdAt text messageUser (receiver w) now)
                     reply w with
        | (w', None) => print (ConsoleLog "Message sent successfully") w'
        | (w', Some e) => print (ConsoleError "Error sending message:" (Some e)) w'
        end
    end.

(** White space as [String.prototype.trim] sees it, on the ASCII range:
    TAB, LF, VT, FF, CR and SPACE. *)
Definition is_space (c : ascii) : bool :=
  let n := nat_of_ascii c in
  ((n =? 32) || ((9 <=? n) && (n <=? 13)))%nat.

Fixpoint trim_start (s : string) : string :=
  match s with
  | EmptyString => EmptyString
  | String c rest => if is_space c then trim_start rest else s
  end.

Fixpoint trim_end (s : string) : string :=
  match s with
  | EmptyString => EmptyString
  | String c rest =>
      match trim_end rest with
      | EmptyString => if is_space c then EmptyString else String c EmptyString
      | kept => String c kept
      end
  end.

Definition trim (s : string) : string := trim_end (trim_start s).

(** The send button of [renderSend], lines 485-491: what [onPress] passes
    to [props.onSend], if it calls it.  [props.text] is the composer's
    string and [props.onSend] is always supplied by GiftedChat. *)
Definition renderSend_onPress (text : string) : option obj :=
  if truthy (JStr text) then Some [("text", JStr (trim text))] else None.

(** The [user] prop of lines 513-516. *)
Definition user_prop (email avatar : val) : val :=
  JObj [("_id", email);
        ("avatar",
         or_else avatar (JStr "https://randomuser.me/api/portraits/lego/1.jpg"))].

(** GiftedChat's own [onSend] (react-native-gifted-chat, a dependency):
    it completes the message it is given with the [user] prop, a fresh
    date and a generated id, [{...message, user, createdAt: new Date(),
    _id: messageIdGenerator()}], and passes the one-element array to the
    [onSend] prop. *)
Definition GiftedChat_onSend (userProp id : val) (now : Z) (message : obj)
  : list val :=
  [JObj (set "_id" id (set "createdAt" (JDate now)
          (set "user" userProp (spread message []))))].

(** Pressing the send button with [text] in the composer. *)
Definition press_send (text : string) (userProp id : val) (now : Z)
    (reply : store_reply) (w : world) : world :=
  match renderSend_onPress text with
  | None => w
  | Some message => onSend (GiftedChat_onSend userProp id now message) now reply w
  end.

(* ================================================================== *)
(** ** Life of a screen instance *)
(* ================================================================== *)

(** What can happen to a mounted screen.  [initial] is the state after
    the mount commit (the effect ran with [receiver = user = null] and
    returned early). *)
Inductive event : Type :=
| Commit (r u : val)
    (* a render is committed in which [receiver] or [user] changed *)
| Unmount
| Snapshot (id : nat) (docs : list doc) (tick : nat -> Z)
| SnapshotError (id : nat) (e : exn)
| Send (msgs : list val) (now : Z) (reply : store_reply).

Definition step (w : world) (ev : event) : world :=
  match ev with
  | Commit r u => subscription_effect (run_cleanup (set_pair r u w))
  | Unmount => run_cleanup w
  | Snapshot id docs tick => on_snapshot id docs tick w
  | SnapshotError id e => on_snapshot_error id e w
  | Send msgs now reply => onSend msgs now reply w
  end.

Definition run (evs : list event) : world := fold_left step evs initial.

(** The listener a trace of store calls leaves open, checking on the way
    that no [Subscribe] happens while another listener is open and that
    each [Unsubscribe] closes the open one. *)
Fixpoint exclusive (open : option nat) (t : list store_call) : option (option nat) :=
  match t with
  | [] => Some open
  | Subscribe id :: t' =>
      match open with
      | None => exclusive (Some id) t'
      | Some _ => None
      end
  | Unsubscribe id :: t' =>
      match open with
      | Some id' => if (id =? id')%nat then exclusive None t' else None
      | None => None
      end
  | AddDoc _ :: t' => exclusive open t'
  end.

(* ================================================================== *)
(** ** Notions used in the statements, and sample data *)
(* ================================================================== *)

Definition newer_or_same (a b : msg) : Prop := createdAt_ms a >= createdAt_ms b.

(** The sender and the receiver of a record in the words of the data
    model: the identity held by the [user] field, given as an identity
    string or as an object whose [_id] is one, and the identity held by
    the [receiver] field. *)
Definition has_sender (m : msg) (s : string) : Prop :=
  field m "user" = JStr s \/
  exists props, field m "user" = JObj props /\ lookup "_id" props = Some (JStr s).

Definition has_receiver (m : msg) (r : string) : Prop :=
  field m "receiver" = JStr r.

(** [{a, b} = {c, d}] as sets. *)
Definition same_pair (a b c d : string) : Prop :=
  forall x, (x = a \/ x = b) <-> (x = c \/ x = d).

(** The record's (sender, receiver), as an unordered pair, is [{p, q}]. *)
Definition between (m : msg) (p q : string) : Prop :=
  exists s r, has_sender m s /\ has_receiver m r /\ same_pair s r p q.

Definition sample_feed : list msg :=
  [ [("id", JStr "d1"); ("user", JObj [("_id", JStr "alice@x.com")]);
     ("receiver", JStr "bob@y.com"); ("createdAt", JDate 100)];
    [("id", JStr "d2"); ("user", JStr "bob@y.com");
     ("receiver", JStr "alice@x.com"); ("createdAt", JDate 90)];
    [("id", JStr "d3"); ("user", JObj [("_id", JStr "alice@x.com")]);
     ("receiver", JStr "carol@z.com"); ("createdAt", JDate 95)] ].

Definition sample_docs : list doc :=
  [ mkDoc "d2" [("user", JStr "bob@y.com"); ("receiver", JStr "alice@x.com");
                ("text", JStr "older"); ("createdAt", JTimestamp 90)];
    mkDoc "d3" [("user", JObj [("_id", JStr "alice@x.com")]);
                ("receiver", JStr "carol@z.com");
                ("text", JStr "elsewhere"); ("createdAt", JTimestamp 95)];
    mkDoc "d1" [("user", JObj [("_id", JStr "alice@x.com")]);
                ("receiver", JStr "bob@y.com");
                ("text", JStr "hi"); ("createdAt", JTimestamp 100)] ].

Definition sample_view : list msg :=
  [ [("id", JStr "d1"); ("user", JObj [("_id", JStr "alice@x.com")]);
     ("receiver", JStr "bob@y.com"); ("text", JStr "hi"); ("createdAt", JDate 100)];
    [("id", JStr "d2"); ("user", JStr "bob@y.com");
     ("receiver", JStr "alice@x.com"); ("text", JStr "older"); ("createdAt", JDate 90)] ].

Definition undated_doc : doc :=
  mkDoc "d9" [("user", JObj [("_id", JStr "alice@x.com")]);
              ("receiver", JStr "bob@y.com"); ("text", JStr "no date");
              ("createdAt", JStr "yesterday")].

(** Two runs match when they end alike and made the same number of clock
    reads. *)
Definition matching {A} (n1 n2 : nat) (r1 r2 : result (A * nat)) : Prop :=
  match r1, r2 with
  | Ok (a1, k1), Ok (a2, k2) =>
      a1 = a2 /\ exists c, k1 = (n1 + c)%nat /\ k2 = (n2 + c)%nat
  | Throw e1, Throw e2 => e1 = e2
  | _, _ => False
  end.

(** What a document must satisfy for two runs to map it alike. *)
Definition alike (tick1 tick2 : nat -> Z) (n1 n2 : nat) (docs : list doc) : Prop :=
  Forall (fun d => has_toDate (doc_data d) = true) docs
  \/ forall k, tick1 (n1 + k)%nat = tick2 (n2 + k)%nat.

Definition feed_with_undated : list doc :=
  [ mkDoc "d1" [("user", JStr "alice@x.com"); ("receiver", JStr "bob@y.com");
                ("text", JStr "undated"); ("createdAt", JNull)];
    mkDoc "d2" [("user", JStr "bob@y.com"); ("receiver", JStr "alice@x.com");
                ("text", JStr "dated"); ("createdAt", JTimestamp 1000)] ].

Definition ids (r : result (list msg * nat)) : list val :=
  match r with
  | Ok (view, _) => map (fun m => field m "id") view
  | Throw _ => []
  end.

(** The [createdAt] of the data is anything but a map with a truthy
    [toDate] entry: absent, [null], a primitive, an array, a [Timestamp],
    or a map whose [toDate] is absent or falsy. *)
Definition safely_dated (data : obj) : bool :=
  match field data "createdAt" with
  | JObj _ => negb (has_toDate data)
  | _ => true
  end.




Definition paired : world := run [Commit (JStr "bob@y.com") (JStr "alice@x.com")].

(** What holds of a screen instance throughout its life: the kept cleanup
    is the one listener that is open, the trace of store calls never had
    two listeners open, and the open listener closed over the current
    pair. *)
Record disciplined (w : world) : Prop := mkDisciplined {
  d_trace : exclusive None (calls w) = Some (cleanup w);
  d_live : map l_id (listeners w)
           = match cleanup w with Some id => [id] | None => [] end;
  d_fresh : Forall (fun l => (l_id l < next_listener w)%nat) (listeners w);
  d_pair : Forall (fun l => l_user l = user w /\ l_receiver l = receiver w)
                  (listeners w)
}.

Definition switching : list event :=
  [ Commit JNull (JStr "alice@x.com");
    Commit (JStr "bob@y.com") (JStr "alice@x.com");
    Snapshot 0 sample_docs (fun _ => 0);
    Commit (JStr "carol@z.com") (JStr "alice@x.com") ].

(* ================================================================== *)
(** ** The rest of the chat screen: route parameters, avatar, bubbles *)
(* ================================================================== *)

(** The effect of lines 61-66 on the state pair ([receiver],
    [isSelfChat]), given [route.params]:
    [if (route.params?.receiver) { setReceiever(route.params.receiver);
    setIsSelfChat(route.params?.isSelfChat || false); }]. *)
Definition route_effect (params : val) (st : val * val) : val * val :=
  if truthy (opt_member params "receiver")
  then (opt_member params "receiver",
        or_else (opt_member params "isSelfChat") (JBool false))
  else st.

(** [fetchAvatar], lines 72-89, on the [avatar] state and the console:
    [reply] is what [getDocs] gives for the query on the signed-in
    email.  With a non-empty result every document sets the state in
    turn. *)
Definition fetchAvatar (reply : result (list doc)) (st : val * list console_entry)
  : val * list console_entry :=
  match reply with
  | Ok docs =>
      (fold_left (fun _ d => field (doc_data d) "avatar") docs (fst st), snd st)
  | Throw e =>
      (fst st, (snd st ++ [ConsoleError "Error fetching avatar: " (Some e)])%list)
  end.

(** The test of [renderBubble] (line 390) and of [renderAvatar] (line
    531): [props.currentMessage.user._id === auth?.currentUser?.email]. *)
Definition is_own_message (email : val) (m : msg) : result bool :=
  match member (field m "user") "_id" with
  | Ok v => Ok (strict_eq v email)
  | Throw e => Throw e
  end.

(** The image source of [renderAvatar] (line 535):
    [props.currentMessage.user.avatar || '...lego/1.jpg']. *)
Definition avatar_uri (m : msg) : result val :=
  match member (field m "user") "avatar" with
  | Ok v => Ok (or_else v (JStr "https://randomuser.me/api/portraits/lego/1.jpg"))
  | Throw e => Throw e
  end.

(** What a message must offer for the bubble, the avatar and the time
    label to be rendered: both member reads succeed and [createdAt] is a
    date. *)
Definition renderable (email : val) (m : msg) : Prop :=
  (exists own, is_own_message email m = Ok own)
  /\ (exists uri, avatar_uri m = Ok uri /\ truthy uri = true)
  /\ field m "createdAt" = JDate (createdAt_ms m).





(* ================================================================== *)
(** ** The buddy list (ListUsers), which opens conversations *)
(* ================================================================== *)

(** [{ id: doc.id, ...doc.data() }] *)
Definition user_of_doc (d : doc) : obj :=
  spread (doc_data d) (set "id" (JStr (doc_id d)) []).

(** [user.email === auth.currentUser.email] *)
Definition is_current (email : val) (u : obj) : bool :=
  strict_eq (field u "email") email.

(** The list handed to [setUsers]: the first user with the signed-in
    email, if there is one, followed by the users with another email. *)
Definition arrange_users (email : val) (fetched : list obj) : list obj :=
  let otherUsers := filter (fun u => negb (is_current email u)) fetched in
  match find (is_current email) fetched with
  | Some currentUser => currentUser :: otherUsers
  | None => otherUsers
  end.

(** [fetchUsers]: [reply] is what [getDocs] gives for the [avatars]
    collection. *)
Definition fetchUsers (email : val) (reply : result (list doc))
    (st : list obj * list console_entry) : list obj * list console_entry :=
  match reply with
  | Ok docs => (arrange_users email (map user_of_doc docs), snd st)
  | Throw e =>
      (fst st, (snd st ++ [ConsoleError "Error fetching users:" (Some e)])%list)
  end.

(** The parameters passed to [navigation.navigate('ChatScreen', ...)]
    when the card of [item] is pressed. *)
Definition navigate_params (email : val) (item : obj) : val :=
  JObj [("receiver", field item "email");
        ("receiverName", field item "email");
        ("isSelfChat", JBool (strict_eq (field item "email") email))].

(** Pressing the cards of [items] one after the other, seen from the chat
    screen's ([receiver], [isSelfChat]). *)
Definition press_all (email : val) (items : list obj) (st : val * val) : val * val :=
  fold_left (fun acc item => route_effect (navigate_params email item) acc) items st.

(* ================================================================== *)
(** ** The theme provider (ThemeContext), read by the chat screen *)
(* ================================================================== *)

Definition lightTheme : obj :=
  [("primary", JStr "#F97316"); ("primaryLight", JStr "#FFF7ED");
   ("primaryDark", JStr "#EA580C"); ("background", JStr "#F8F9FA");
   ("cardBackground", JStr "#ffffff"); ("text", JStr "#1F2937");
   ("textSecondary", JStr "#6B7280"); ("textLight", JStr "#ffffff");
   ("border", JStr "#E5E7EB"); ("shadow", JStr "#F97316");
   ("messageYou", JStr "#F97316"); ("messageOther", JStr "#ffffff");
   ("headerBg", JStr "#F97316"); ("badgeBg", JStr "#F97316");
   ("isDark", JBool false)].

Definition darkTheme : obj :=
  [("primary", JStr "#FB923C"); ("primaryLight", JStr "#1F2937");
   ("primaryDark", JStr "#F97316"); ("background", JStr "#111827");
   ("cardBackground", JStr "#1F2937"); ("text", JStr "#F9FAFB");
   ("textSecondary", JStr "#9CA3AF"); ("textLight", JStr "#ffffff");
   ("border", JStr "#374151"); ("shadow", JStr "#000000");
   ("messageYou", JStr "#EA580C"); ("messageOther", JStr "#374151");
   ("headerBg", JStr "#EA580C"); ("badgeBg", JStr "#FB923C");
   ("isDark", JBool true)].

(** AsyncStorage: string keys to string values. *)
Definition storage : Type := list (string * string).

Fixpoint getItem (k : string) (st : storage) : option string :=
  match st with
  | [] => None
  | (k', v) :: rest => if (k =? k')%string then Some v else getItem k rest
  end.

Fixpoint setItem (k v : string) (st : storage) : storage :=
  match st with
  | [] => [(k, v)]
  | (k', v') :: rest =>
      if (k =? k')%string then (k', v) :: rest else (k', v') :: setItem k v rest
  end.

(** The provider's state with the device storage and the console. *)
Record theme_app : Type := mkThemeApp {
  isDark : bool;                 (* useState(false)      *)
  theme : obj;                   (* useState(lightTheme) *)
  disk : storage;
  theme_console : list console_entry
}.

(** A provider freshly mounted over the given storage. *)
Definition fresh_provider (st : storage) (log : list console_entry) : theme_app :=
  mkThemeApp false lightTheme st log.

(** [loadTheme], lines 638-650; [failure] is the rejection of
    [AsyncStorage.getItem], if it rejects. *)
Definition loadTheme (failure : option exn) (a : theme_app) : theme_app :=
  match failure with
  | Some e =>
      mkThemeApp (isDark a) (theme a) (disk a)
        (theme_console a ++ [ConsoleError "Error loading theme:" (Some e)])
  | None =>
      match getItem "theme" (disk a) with
      | Some savedTheme =>
          let isDarkMode := (savedTheme =? "dark")%string in
          mkThemeApp isDarkMode (if isDarkMode then darkTheme else lightTheme)
                     (disk a) (theme_console a)
      | None => a
      end
  end.

(** [toggleTheme], lines 654-666; the state is set before the write is
    awaited, and [failure] is the rejection of [AsyncStorage.setItem], if
    it rejects. *)
Definition toggleTheme (failure : option exn) (a : theme_app) : theme_app :=
  let newIsDark := negb (isDark a) in
  let newTheme := if newIsDark then darkTheme else lightTheme in
  match failure with
  | Some e =>
      mkThemeApp newIsDark newTheme (disk a)
        (theme_console a ++ [ConsoleError "Error saving theme:" (Some e)])
  | None =>
      mkThemeApp newIsDark newTheme
        (setItem "theme" (if newIsDark then "dark" else "light") (disk a))
        (theme_console a)
  end.

Inductive theme_event : Type :=
| Load (failure : option exn)
| Toggle (failure : option exn)
| Restart.   (* the app is started again: a new provider over the same storage *)

Definition theme_step (a : theme_app) (ev : theme_event) : theme_app :=
  match ev with
  | Load failure => loadTheme failure a
  | Toggle failure => toggleTheme failure a
  | Restart => fresh_provider (disk a) (theme_console a)
  end.

Definition theme_run (st : storage) (evs : list theme_event) : theme_app :=
  fold_left theme_step evs (fresh_provider st []).

(* ================================================================== *)
(** ** The settings screen: the avatar document the other screens read *)
(* ================================================================== *)

(** [Toast.show({ type, text1, ... })], kept as type and title. *)
Definition toast : Type := (string * string)%type.

(** The settings screen with the [avatars] collection, in the order the
    store returns its documents. *)
Record settings : Type := mkSettings {
  s_avatar : val;               (* useState(null) *)
  s_imageUrl : val;             (* useState('')   *)
  s_docRef : option string;     (* useState(null): id of the referenced document *)
  s_userEmail : val;            (* useState(''), set from auth on mount *)
  avatars : list doc;
  toasts : list toast;
  s_console : list console_entry
}.

(** The query [where("email", "==", email)] on a collection. *)
Definition by_email (email : val) (coll : list doc) : list doc :=
  filter (fun d => strict_eq (field (doc_data d) "email") email) coll.

(** [fetchAvatar] of the settings screen, lines 42-67: every document of
    the result sets the reference, and sets the avatar when it has a
    truthy one. *)
Definition settings_fetchAvatar (reply : result (list doc)) (s : settings) : settings :=
  match reply with
  | Ok [] =>
      mkSettings (s_avatar s) (s_imageUrl s) (s_docRef s) (s_userEmail s)
                 (avatars s) (toasts s)
                 (s_console s ++ [ConsoleLog "No such document!"])
  | Ok docs =>
      mkSettings
        (fold_left (fun a d => if truthy (field (doc_data d) "avatar")
                               then field (doc_data d) "avatar" else a)
                   docs (s_avatar s))
        (s_imageUrl s)
        (fold_left (fun _ d => Some (doc_id d)) docs (s_docRef s))
        (s_userEmail s) (avatars s) (toasts s) (s_console s)
  | Throw e =>
      mkSettings (s_avatar s) (s_imageUrl s) (s_docRef s) (s_userEmail s)
                 (avatars s) (toasts s)
                 (s_console s ++ [ConsoleError "Error getting document: " (Some e)])
  end.

(** [setDoc(docRef, data)]: the document with that id gets [data] as its
    whole content; when there is none, it is created, at the place [pos]
    the store's order gives it. *)
Fixpoint replace_doc (id : string) (data : obj) (coll : list doc) : option (list doc) :=
  match coll with
  | [] => None
  | d :: rest =>
      if (doc_id d =? id)%string then Some (mkDoc id data :: rest)
      else match replace_doc id data rest with
           | Some rest' => Some (d :: rest')
           | None => None
           end
  end.

Definition insert_doc (pos : nat) (d : doc) (coll : list doc) : list doc :=
  (firstn pos coll ++ d :: skipn pos coll)%list.

Definition set_doc (id : string) (data : obj) (pos : nat) (coll : list doc) : list doc :=
  match replace_doc id data coll with
  | Some coll' => coll'
  | None => insert_doc pos (mkDoc id data) coll
  end.

Inductive picked : Type :=
| Canceled
| Asset (uri : string).

(** What the surroundings answer during one [pickImage]: the permission
    request, the picker, [uploadImage] (the download URL), the Firestore
    write, and for a created document the id and place the store gives
    it. *)
Record pick_env : Type := mkPickEnv {
  permission : result bool;
  picker : result picked;
  upload : result string;
  write : store_reply;
  new_id : string;
  new_pos : nat
}.

Definition show_toast (t : toast) (s : settings) : settings :=
  mkSettings (s_avatar s) (s_imageUrl s) (s_docRef s) (s_userEmail s)
             (avatars s) (toasts s ++ [t]) (s_console s).

(** The [catch] of [pickImage], lines 163-171. *)
Definition pick_failed (e : exn) (s : settings) : settings :=
  mkSettings (s_avatar s) (s_imageUrl s) (s_docRef s) (s_userEmail s)
             (avatars s) (toasts s ++ [("error", "Upload Failed")])
             (s_console s ++ [ConsoleError "Error picking image:" (Some e)]).

(** [pickImage], lines 99-172. *)
Definition pickImage (env : pick_env) (s : settings) : settings :=
  match permission env with
  | Throw e => pick_failed e s
  | Ok false => show_toast ("error", "Permission Required") s
  | Ok true =>
      match picker env with
      | Throw e => pick_failed e s
      | Ok Canceled => s
      | Ok (Asset uri) =>
          match upload env with
          | Throw e => pick_failed e s
          | Ok url =>
              let s1 := mkSettings (JStr url) (JStr url) (s_docRef s) (s_userEmail s)
                                   (avatars s) (toasts s) (s_console s) in
              let data := [("email", s_userEmail s); ("avatar", JStr url)] in
              if encodable data then
                match write env with
                | Rejected e => pick_failed e s1
                | Accepted =>
                    match s_docRef s with
                    | None =>
                        show_toast ("success", "Avatar Uploaded")
                          (mkSettings (s_avatar s1) (s_imageUrl s1) (s_docRef s1)
                             (s_userEmail s1)
                             (insert_doc (new_pos env) (mkDoc (new_id env) (stored data))
                                         (avatars s1))
                             (toasts s1) (s_console s1))
                    | Some id =>
                        show_toast ("success", "Avatar Updated")
                          (mkSettings (s_avatar s1) (s_imageUrl s1) (s_docRef s1)
                             (s_userEmail s1)
                             (set_doc id (stored data) (new_pos env) (avatars s1))
                             (toasts s1) (s_console s1))
                    end
                end
              else pick_failed (FirestoreError "unsupported field value") s1
          end
      end
  end.

Definition fetched_docs : list doc :=
  [ mkDoc "a1" [("email", JStr "bob@y.com")];
    mkDoc "a2" [("email", JStr "alice@x.com"); ("avatar", JStr "new")];
    mkDoc "a3" [("avatar", JStr "no email")];
    mkDoc "a4" [("email", JStr "alice@x.com"); ("avatar", JStr "old")] ].

Definition doc_with_own_id : doc :=
  mkDoc "generated" [("id", JNum 42); ("text", JStr "x"); ("createdAt", JTimestamp 5)].

Definition theme_consistent (a : theme_app) : Prop :=
  theme a = (if isDark a then darkTheme else lightTheme)
  /\ field (theme a) "isDark" = JBool (isDark a).

(** The screen is in order: disciplined, its open listener closed over
    truthy values, and every message of its view can be rendered. *)
Definition in_order (w : world) : Prop :=
  disciplined w
  /\ Forall (fun l => truthy (l_user l) = true /\ truthy (l_receiver l) = true)
            (listeners w)
  /\ forall email, Forall (renderable email) (messages w).

Definition settings_sample : settings :=
  mkSettings JNull (JStr "") None (JStr "alice@x.com")
    [ mkDoc "a1" [("email", JStr "bob@y.com"); ("avatar", JStr "bob.jpg")];
      mkDoc "a2" [("email", JStr "alice@x.com"); ("avatar", JStr "old.jpg")] ]
    [] [].

Definition settings_newcomer : settings :=
  mkSettings JNull (JStr "") None (JStr "carol@z.com")
    [ mkDoc "a1" [("email", JStr "bob@y.com"); ("avatar", JStr "bob.jpg")] ]
    [] [].

Definition pick_ok (url id : string) (pos : nat) : pick_env :=
  mkPickEnv (Ok true) (Ok (Asset "file:///photo.jpg")) (Ok url) Accepted id pos.

(* ================================================================== *)
(** ** Properties of objects, the filter and the sort *)
(* ================================================================== *)

Lemma lookup_set_same (k : string) (v : val) (o : obj) :
  lookup k (set k v o) = Some v.
Proof.
  induction o as [| [k' v'] o IH]; simpl.
  - now rewrite String.eqb_refl.
  - destruct (k =? k')%string eqn:E; simpl; rewrite E; auto.
Qed.

Lemma lookup_set_other (k k' : string) (v : val) (o : obj) :
  k <> k' -> lookup k (set k' v o) = lookup k o.
Proof.
  intros Hne. apply String.eqb_neq in Hne.
  induction o as [| [k2 v2] o IH]; simpl.
  - now rewrite Hne.
  - destruct (k' =? k2)%string eqn:E; simpl.
    + apply String.eqb_eq in E. subst k2. now rewrite Hne.
    + now rewrite IH.
Qed.

Lemma lookup_app (k : string) (o1 o2 : obj) :
  lookup k (o1 ++ o2)%list =
  match lookup k o1 with Some v => Some v | None => lookup k o2 end.
Proof.
  induction o1 as [| [k' v'] o1 IH]; simpl; auto.
  destruct (k =? k')%string; auto.
Qed.

(** Spread is last-write-wins over the source, then the target. *)
Lemma lookup_spread (k : string) (src target : obj) :
  lookup k (spread src target) =
  match lookup k (rev src) with
  | Some v => Some v
  | None => lookup k target
  end.
Proof.
  unfold spread. revert target.
  induction src as [| [k1 v1] src IH]; intros target; simpl; auto.
  rewrite IH, lookup_app. destruct (lookup k (rev src)); auto.
  simpl. destruct (String.eqb_spec k k1) as [-> | Hne].
  - apply lookup_set_same.
  - now apply lookup_set_other.
Qed.

Lemma strict_eq_str (v : val) (s : string) :
  strict_eq v (JStr s) = true <-> v = JStr s.
Proof.
  destruct v; simpl; split; try discriminate; intros H.
  - apply String.eqb_eq in H. now subst.
  - injection H as ->. apply String.eqb_refl.
Qed.

(** When the extracted sender is a non-empty string, it came from a
    string-valued [user] or from the [_id] of an object-valued [user]. *)
Lemma sender_of_string (u : val) (s : string) :
  s <> "" ->
  (sender_of u = JStr s <->
   u = JStr s \/ exists props, u = JObj props /\ lookup "_id" props = Some (JStr s)).
Proof.
  intros Hs. apply String.eqb_neq in Hs. unfold sender_of, or_else. split.
  - destruct u; simpl; try discriminate; auto.
    + destruct (lookup "_id" props) as [x |] eqn:E; simpl; try discriminate.
      destruct (truthy x) eqn:T; try discriminate.
      intros ->. right. now exists props.
  - intros [-> | [props [-> E]]]; simpl.
    + now destruct (s =? "")%string.
    + rewrite E. simpl. now rewrite Hs.
Qed.

Lemma insert_desc_perm (x : msg) (l : list msg) :
  Permutation (insert_desc x l) (x :: l).
Proof.
  induction l as [| y l IH]; simpl; auto.
  destruct (compare_desc x y <=? 0); auto.
  rewrite IH. apply perm_swap.
Qed.

Lemma sort_desc_perm (l : list msg) : Permutation (sort_desc l) l.
Proof.
  induction l as [| x l IH]; simpl; auto.
  rewrite insert_desc_perm. now constructor.
Qed.

Lemma insert_desc_sorted (x : msg) (l : list msg) :
  StronglySorted newer_or_same l -> StronglySorted newer_or_same (insert_desc x l).
Proof.
  induction 1 as [| y l Hs IH Hy]; simpl.
  - repeat constructor.
  - unfold compare_desc. destruct (Z.leb_spec (createdAt_ms y - createdAt_ms x) 0) as [Hle | Hgt].
    + constructor; [now constructor |].
      constructor; [unfold newer_or_same; lia |].
      eapply Forall_impl; [| exact Hy]. unfold newer_or_same. intros; lia.
    + constructor; auto.
      eapply Permutation_Forall; [symmetry; apply insert_desc_perm |].
      constructor; auto. unfold newer_or_same; lia.
Qed.

Lemma sort_desc_sorted (l : list msg) : StronglySorted newer_or_same (sort_desc l).
Proof.
  induction l; simpl; [constructor | now apply insert_desc_sorted].
Qed.

Lemma sorted_nth_error (l : list msg) :
  StronglySorted newer_or_same l ->
  forall i j a b, (i < j)%nat ->
    nth_error l i = Some a -> nth_error l j = Some b -> newer_or_same a b.
Proof.
  induction 1 as [| x l Hs IH Hx]; intros i j a b Hij Ha Hb.
  - destruct i; discriminate.
  - destruct j as [| j]; [lia |]. simpl in Hb.
    destruct i as [| i]; simpl in Ha.
    + injection Ha as <-. rewrite Forall_forall in Hx. apply Hx.
      eapply nth_error_In; eauto.
    + apply (IH i j); auto; lia.
Qed.

Lemma in_view_of (user receiver : val) (all : list msg) (m : msg) :
  In m (view_of user receiver all) <->
  In m all /\ in_conversation user receiver m = true.
Proof.
  unfold view_of, filteredMessages. rewrite <- filter_In. split; intros H.
  - eapply Permutation_in; [apply sort_desc_perm | exact H].
  - eapply Permutation_in; [symmetry; apply sort_desc_perm | exact H].
Qed.

(** *** What the mapping stores under [createdAt] *)

Lemma createdAt_of_date (data : obj) tick n v n' :
  createdAt_of data tick n = Ok (v, n') -> exists ms, v = JDate ms.
Proof.
  unfold createdAt_of.
  destruct (has_toDate data) eqn:T.
  - unfold bind, lift.
    destruct (member (field data "createdAt") "toDate") as [f | e]; [| discriminate].
    unfold call. destruct f as [| | | | | | | [ms] | |]; try discriminate.
    intros H. injection H as <- _. now exists ms.
  - unfold new_Date. intros H. injection H as <- _. now eexists.
Qed.

Lemma mapDoc_createdAt (d : doc) tick n m n' :
  mapDoc d tick n = Ok (m, n') -> field m "createdAt" = JDate (createdAt_ms m).
Proof.
  unfold mapDoc, bind, ret.
  destruct (createdAt_of (doc_data d) tick n) as [[v n1] | e] eqn:E; [| discriminate].
  intros H. injection H as <- _.
  destruct (createdAt_of_date _ _ _ _ _ E) as [ms ->].
  unfold createdAt_ms, field, opt_member, message_of. now rewrite lookup_set_same.
Qed.

Lemma allMessages_createdAt (docs : list doc) tick :
  forall n all n', allMessages docs tick n = Ok (all, n') ->
    Forall (fun m => field m "createdAt" = JDate (createdAt_ms m)) all.
Proof.
  induction docs as [| d docs IH]; intros n all n'; simpl.
  - unfold ret. intros H. injection H as <- _. constructor.
  - unfold bind at 1.
    destruct (mapDoc d tick n) as [[m n1] | e] eqn:Em; [| discriminate].
    unfold bind at 1.
    destruct (allMessages docs tick n1) as [[ms n2] | e] eqn:Ea; [| discriminate].
    unfold ret. intros H. injection H as <- _.
    constructor; [eapply mapDoc_createdAt; eauto | eapply IH; eauto].
Qed.

(* ================================================================== *)
(** ** The conversation filter *)
(* ================================================================== *)

Lemma in_conversation_true (u r : string) (m : msg) :
  in_conversation (JStr u) (JStr r) m = true <->
  (msgUser m = JStr u /\ msgReceiver m = JStr r) \/
  (msgUser m = JStr r /\ msgReceiver m = JStr u).
Proof.
  unfold in_conversation.
  rewrite orb_true_iff, !andb_true_iff, !strict_eq_str. tauto.
Qed.

Lemma in_conversation_between (cur other : string) (m : msg) :
  cur <> "" -> other <> "" ->
  (in_conversation (JStr cur) (JStr other) m = true <-> between m cur other).
Proof.
  intros Hc Ho. rewrite in_conversation_true. unfold msgUser, msgReceiver. split.
  - intros [[Hu Hr] | [Hu Hr]].
    + exists cur, other. split; [now apply sender_of_string in Hu |].
      split; [exact Hr | intros x; tauto].
    + exists other, cur. split; [now apply sender_of_string in Hu |].
      split; [exact Hr | intros x; tauto].
  - intros (s & r & Hs & Hr & Hp). unfold has_receiver in Hr. rewrite Hr.
    assert (Hs' : s = cur \/ s = other) by (apply Hp; auto).
    assert (Hr' : r = cur \/ r = other) by (apply Hp; auto).
    assert (Hc' : cur = s \/ cur = r) by (apply Hp; auto).
    assert (Ho' : other = s \/ other = r) by (apply Hp; auto).
    assert (Hne : s <> "") by (destruct Hs'; subst; auto).
    apply (sender_of_string _ _ Hne) in Hs. rewrite Hs.
    destruct Hs', Hr', Hc', Ho'; subst; auto.
Qed.

(** C1.  For a pair of non-empty identity strings, the filter retains a
    record exactly when its (sender, receiver), taken as an unordered
    pair, is the conversation pair.  In self-chat exactly the records with
    sender = receiver = the current principal are retained, and a record
    the principal sent to a third party is not. *)
Theorem filter_retains_exactly_the_pair
    (cur other : string) (all : list msg) (m : msg) :
  cur <> "" -> other <> "" ->
  (In m (filteredMessages (JStr cur) (JStr other) all) <->
     In m all /\ between m cur other)
  /\ (In m (filteredMessages (JStr cur) (JStr cur) all) <->
        In m all /\ has_sender m cur /\ has_receiver m cur)
  /\ (forall third, third <> cur -> has_sender m cur -> has_receiver m third ->
        ~ In m (filteredMessages (JStr cur) (JStr cur) all)).
Proof.
  intros Hc Ho.
  assert (Hself : in_conversation (JStr cur) (JStr cur) m = true <->
                  has_sender m cur /\ has_receiver m cur).
  { rewrite in_conversation_true. unfold msgUser, msgReceiver, has_receiver.
    rewrite (sender_of_string _ _ Hc). fold (has_sender m cur). tauto. }
  unfold filteredMessages. split; [| split].
  - rewrite filter_In, (in_conversation_between cur other m Hc Ho). tauto.
  - rewrite filter_In, Hself. tauto.
  - intros third Hne Hs Hr Hin. apply filter_In in Hin as [_ Hin].
    apply Hself in Hin as [_ Hr']. unfold has_receiver in *. congruence.
Qed.

Lemma filter_retains_exactly_the_pair_witness :
  let m := nth 0 sample_feed [] in
  ("alice@x.com" <> "" /\ "bob@y.com" <> "")
  /\ (In m (filteredMessages (JStr "alice@x.com") (JStr "bob@y.com") sample_feed) <->
        In m sample_feed /\ between m "alice@x.com" "bob@y.com")
  /\ (In m (filteredMessages (JStr "alice@x.com") (JStr "alice@x.com") sample_feed) <->
        In m sample_feed /\ has_sender m "alice@x.com" /\ has_receiver m "alice@x.com")
  /\ (forall third, third <> "alice@x.com" ->
        has_sender m "alice@x.com" -> has_receiver m third ->
        ~ In m (filteredMessages (JStr "alice@x.com") (JStr "alice@x.com") sample_feed)).
Proof.
  intros m. split; [split; discriminate |].
  apply (filter_retains_exactly_the_pair "alice@x.com" "bob@y.com" sample_feed m);
    discriminate.
Defined.

(* ================================================================== *)
(** ** Order of a view *)
(* ================================================================== *)

(** C3.  In every view the callback produces, each message holds a date
    under [createdAt], and a message with a strictly later date stands
    before one with an earlier date, whatever the order of the documents
    in the snapshot. *)
Theorem view_newest_first
    (user receiver : val) (docs : list doc) (tick : nat -> Z) (n n' : nat)
    (view : list msg) :
  snapshot_view user receiver docs tick n = Ok (view, n') ->
  (forall m, In m view -> field m "createdAt" = JDate (createdAt_ms m))
  /\ (forall i j m1 m2,
        nth_error view i = Some m1 -> nth_error view j = Some m2 ->
        createdAt_ms m1 > createdAt_ms m2 -> (i < j)%nat).
Proof.
  unfold snapshot_view, bind, ret.
  destruct (allMessages docs tick n) as [[all n1] | e] eqn:Ea; [| discriminate].
  intros H. injection H as <- _. split.
  - intros m Hm. apply in_view_of in Hm as [Hm _].
    apply allMessages_createdAt in Ea. rewrite Forall_forall in Ea. auto.
  - intros i j m1 m2 H1 H2 Hgt.
    destruct (Nat.lt_ge_cases i j) as [| Hji]; auto. exfalso.
    destruct (Nat.eq_dec i j) as [-> | Hne].
    + rewrite H1 in H2. injection H2 as ->. lia.
    + assert (Hs := sorted_nth_error _ (sort_desc_sorted (filteredMessages user receiver all))
                      j i m2 m1 ltac:(lia) H2 H1).
      unfold newer_or_same in Hs. lia.
Qed.

Lemma view_newest_first_witness :
  snapshot_view (JStr "bob@y.com") (JStr "alice@x.com") sample_docs (fun _ => 0) 0%nat
    = Ok (sample_view, 0%nat)
  /\ (forall m, In m sample_view -> field m "createdAt" = JDate (createdAt_ms m))
  /\ (forall i j m1 m2,
        nth_error sample_view i = Some m1 -> nth_error sample_view j = Some m2 ->
        createdAt_ms m1 > createdAt_ms m2 -> (i < j)%nat).
Proof.
  split; [reflexivity |].
  apply (view_newest_first (JStr "bob@y.com") (JStr "alice@x.com") sample_docs
           (fun _ => 0) 0%nat 0%nat sample_view).
  reflexivity.
Defined.

(* ================================================================== *)
(** ** The mapping of documents to messages *)
(* ================================================================== *)

Lemma lookup_absent (k : string) (o : obj) :
  ~ In k (map fst o) -> lookup k o = None.
Proof.
  induction o as [| [k' v] o IH]; simpl; auto.
  intros H. destruct (String.eqb_spec k k') as [-> | _]; [tauto | auto].
Qed.

Lemma lookup_rev (k : string) (o : obj) :
  well_keyed o -> lookup k (rev o) = lookup k o.
Proof.
  unfold well_keyed. induction o as [| [k' v] o IH]; simpl; auto.
  intros H. inversion H as [| ? ? Hnot Hnd]; subst.
  rewrite lookup_app, (IH Hnd). simpl.
  destruct (String.eqb_spec k k') as [-> | _].
  - now rewrite (lookup_absent _ _ Hnot).
  - now destruct (lookup k o).
Qed.

Lemma message_of_field (d : doc) (created : val) (k : string) :
  well_keyed (doc_data d) ->
  field (message_of d created) k =
    if (k =? "createdAt")%string then created
    else match lookup k (doc_data d) with
         | Some v => v
         | None => if (k =? "id")%string then JStr (doc_id d) else JUndefined
         end.
Proof.
  intros Hk. unfold field, message_of, opt_member.
  destruct (String.eqb_spec k "createdAt") as [-> | Hne].
  - now rewrite lookup_set_same.
  - rewrite (lookup_set_other _ _ _ _ Hne), lookup_spread, (lookup_rev _ _ Hk).
    destruct (lookup k (doc_data d)); auto. simpl.
    now destruct (k =? "id")%string.
Qed.

Lemma mapDoc_fallback (d : doc) tick n :
  has_toDate (doc_data d) = false ->
  mapDoc d tick n = Ok (message_of d (JDate (tick n)), S n).
Proof.
  intros H. unfold mapDoc, bind, createdAt_of. now rewrite H.
Qed.

Lemma allMessages_cons (d : doc) (rest : list doc) tick n :
  allMessages (d :: rest) tick n =
  match mapDoc d tick n with
  | Ok (m, k) =>
      match allMessages rest tick k with
      | Ok (ms, k') => Ok (m :: ms, k')
      | Throw e => Throw e
      end
  | Throw e => Throw e
  end.
Proof.
  simpl. unfold bind, ret.
  destruct (mapDoc d tick n) as [[m k] | e]; reflexivity.
Qed.




(* ================================================================== *)
(** ** Dependence of a run on the clock *)
(* ================================================================== *)

Lemma matching_outcome {A} n1 n2 (r1 r2 : result (A * nat)) :
  matching n1 n2 r1 r2 -> outcome r1 = outcome r2.
Proof.
  destruct r1 as [[a1 k1] | e1], r2 as [[a2 k2] | e2]; simpl; try tauto.
  - now intros [-> _].
  - now intros ->.
Qed.

Lemma mapDoc_dated (d : doc) tick1 tick2 n1 n2 :
  has_toDate (doc_data d) = true ->
  matching n1 n2 (mapDoc d tick1 n1) (mapDoc d tick2 n2).
Proof.
  intros H. unfold matching, mapDoc, createdAt_of. rewrite H.
  unfold bind, lift, ret.
  destruct (member (field (doc_data d) "createdAt") "toDate") as [f | e]; auto.
  destruct (call f) as [v | e]; auto.
  split; auto. exists 0%nat. lia.
Qed.

Lemma mapDoc_aligned (d : doc) tick1 tick2 n1 n2 :
  tick1 n1 = tick2 n2 ->
  matching n1 n2 (mapDoc d tick1 n1) (mapDoc d tick2 n2).
Proof.
  intros Ht. destruct (has_toDate (doc_data d)) eqn:H.
  - now apply mapDoc_dated.
  - rewrite !mapDoc_fallback by assumption. unfold matching. rewrite Ht.
    split; auto. exists 1%nat. lia.
Qed.

Lemma allMessages_alike (docs : list doc) tick1 tick2 :
  forall n1 n2, alike tick1 tick2 n1 n2 docs ->
    matching n1 n2 (allMessages docs tick1 n1) (allMessages docs tick2 n2).
Proof.
  induction docs as [| d docs IH]; intros n1 n2 Hal.
  - unfold matching. simpl. unfold ret. split; auto. exists 0%nat. lia.
  - rewrite !allMessages_cons.
    assert (Hd : matching n1 n2 (mapDoc d tick1 n1) (mapDoc d tick2 n2)).
    { destruct Hal as [Hall | Hk].
      - inversion Hall; subst. now apply mapDoc_dated.
      - apply mapDoc_aligned. specialize (Hk 0%nat). now rewrite !Nat.add_0_r in Hk. }
    destruct (mapDoc d tick1 n1) as [[m1 k1] | e1], (mapDoc d tick2 n2) as [[m2 k2] | e2];
      unfold matching in Hd |- *; try tauto.
    destruct Hd as [<- [c [-> ->]]].
    assert (Hrest : alike tick1 tick2 (n1 + c) (n2 + c) docs).
    { destruct Hal as [Hall | Hk]; [left; now inversion Hall | right].
      intros k. rewrite <- !Nat.add_assoc. apply Hk. }
    specialize (IH _ _ Hrest).
    destruct (allMessages docs tick1 (n1 + c)%nat) as [[a1 j1] | e1],
             (allMessages docs tick2 (n2 + c)%nat) as [[a2 j2] | e2];
      unfold matching in IH; try tauto.
    destruct IH as [<- [c' [-> ->]]]. split; auto. exists (c + c')%nat. lia.
Qed.

(** C4, as the code has it.  The filter+sort step is a function of the
    snapshot, the pair and the clock readings taken for records without a
    [toDate] conversion: two runs on the same snapshot give the same
    ordered sequence when every record's [createdAt] offers the
    conversion, or when the clock reads the same in both runs. *)
Theorem view_function_of_snapshot_pair_and_clock
    (user receiver : val) (docs : list doc) (tick1 tick2 : nat -> Z) (n1 n2 : nat) :
  alike tick1 tick2 n1 n2 docs ->
  outcome (snapshot_view user receiver docs tick1 n1)
  = outcome (snapshot_view user receiver docs tick2 n2).
Proof.
  intros Hal. apply (matching_outcome n1 n2).
  apply allMessages_alike in Hal. unfold snapshot_view, bind, ret.
  destruct (allMessages docs tick1 n1) as [[a1 j1] | e1],
           (allMessages docs tick2 n2) as [[a2 j2] | e2];
    unfold matching in Hal |- *; try tauto.
  destruct Hal as [<- Hc]. auto.
Qed.

Lemma view_function_of_snapshot_pair_and_clock_witness :
  alike (fun _ => 500) (fun _ => 2000) 0%nat 3%nat sample_docs
  /\ outcome (snapshot_view (JStr "bob@y.com") (JStr "alice@x.com") sample_docs
                (fun _ => 500) 0%nat)
     = outcome (snapshot_view (JStr "bob@y.com") (JStr "alice@x.com") sample_docs
                (fun _ => 2000) 3%nat).
Proof.
  assert (H : alike (fun _ => 500) (fun _ => 2000) 0%nat 3%nat sample_docs).
  { left. repeat constructor. }
  split; [exact H |].
  exact (view_function_of_snapshot_pair_and_clock _ _ _ _ _ _ _ H).
Defined.

(** C4 as stated fails: two runs of the callback on one snapshot, the
    first while the clock reads 500 and the second while it reads 2000,
    order the same two records differently. *)
Lemma rerun_reorders_undated_record :
  ids (snapshot_view (JStr "alice@x.com") (JStr "bob@y.com") feed_with_undated
         (fun _ => 500) 0%nat) = [JStr "d2"; JStr "d1"]
  /\ ids (snapshot_view (JStr "alice@x.com") (JStr "bob@y.com") feed_with_undated
            (fun _ => 2000) 0%nat) = [JStr "d1"; JStr "d2"]
  /\ outcome (snapshot_view (JStr "alice@x.com") (JStr "bob@y.com") feed_with_undated
                (fun _ => 500) 0%nat)
     <> outcome (snapshot_view (JStr "alice@x.com") (JStr "bob@y.com") feed_with_undated
                   (fun _ => 2000) 0%nat).
Proof.
  split; [reflexivity | split; [reflexivity | discriminate]].
Qed.

(* ================================================================== *)
(** ** Record shapes the callback survives *)
(* ================================================================== *)

Lemma missing_createdAt_safe (data : obj) :
  lookup "createdAt" data = None -> safely_dated data = true.
Proof.
  unfold safely_dated, field, opt_member. now intros ->.
Qed.







(* ================================================================== *)
(** ** The submission path *)
(* ================================================================== *)






(** C5.  A composer holding one space: the send button's test
    [props.text] passes, the text handed on is the trimmed, empty string,
    and [onSend] stores a record whose text is empty. *)
Theorem blank_text_reaches_the_store :
  renderSend_onPress " " = Some [("text", JStr "")]
  /\ chats (press_send " " (user_prop (JStr "alice@x.com") JNull) (JStr "m-2") 100
              Accepted paired)
     = [ [("_id", JStr "m-2");
          ("createdAt", JTimestamp 100);
          ("text", JStr "");
          ("user", JObj [("_id", JStr "alice@x.com");
                         ("avatar", JStr "https://randomuser.me/api/portraits/lego/1.jpg")]);
          ("receiver", JStr "bob@y.com")] ].
Proof.
  split; reflexivity.
Qed.

(** The part of the guard that works: an empty composer sends nothing,
    and what is sent is the trimmed text. *)
Example trim_examples :
  trim "  hi there  " = "hi there" /\ trim " " = "" /\ trim "" = "".
Proof. repeat split. Qed.

Lemma empty_text_not_sent (userProp id : val) now reply (w : world) :
  press_send "" userProp id now reply w = w.
Proof. reflexivity. Qed.

Lemma sent_text_is_trimmed (text : string) (message : obj) :
  renderSend_onPress text = Some message -> field message "text" = JStr (trim text).
Proof.
  unfold renderSend_onPress. destruct (truthy (JStr text)); [| discriminate].
  intros H. now injection H as <-.
Qed.

(** C6.  When [receiver] or [user] is unset (or otherwise falsy) at the
    time of the send, [onSend] prints the missing precondition and does
    nothing else: no call on the store, no document written, the view and
    the listeners as they were. *)
Theorem send_without_pair_fails_fast
    (w : world) (msgs : list val) (now : Z) (reply : store_reply) :
  truthy (receiver w) = false \/ truthy (user w) = false ->
  let w' := onSend msgs now reply w in
  console w' = (console w ++ [ConsoleError "Receiver or user not defined" None])%list
  /\ calls w' = calls w
  /\ chats w' = chats w
  /\ messages w' = messages w
  /\ listeners w' = listeners w
  /\ uncaught w' = uncaught w.
Proof.
  intros H w'.
  assert (Hg : negb (truthy (receiver w)) || negb (truthy (user w)) = true).
  { destruct H as [-> | ->]; simpl; auto using orb_true_r. }
  unfold w', onSend. rewrite Hg. simpl. repeat split.
Qed.

Lemma send_without_pair_fails_fast_witness :
  (truthy (receiver initial) = false \/ truthy (user initial) = false)
  /\ let w' := onSend [JObj [("text", JStr "hi")]] 5 Accepted initial in
     console w' = (console initial ++ [ConsoleError "Receiver or user not defined" None])%list
     /\ calls w' = calls initial
     /\ chats w' = chats initial
     /\ messages w' = messages initial
     /\ listeners w' = listeners initial
     /\ uncaught w' = uncaught initial.
Proof.
  split; [left; reflexivity |].
  apply (send_without_pair_fails_fast initial [JObj [("text", JStr "hi")]] 5 Accepted).
  left. reflexivity.
Defined.

(* ================================================================== *)
(** ** Failures reported by the store *)
(* ================================================================== *)

(** C7.  A failure delivered to a live listener is printed and nothing
    else changes: the view stays, no call is made on the store, the
    listener set is as before.  A send the store refuses is printed as
    well: the call was made once, no document is written, the view stays
    and nothing escapes the handler. *)
Theorem store_failures_logged_view_kept (w : world) :
  (forall id l e,
      find_listener id w = Some l ->
      let w' := on_snapshot_error id e w in
      console w' = (console w ++ [ConsoleError "Error fetching messages:" (Some e)])%list
      /\ messages w' = messages w
      /\ calls w' = calls w
      /\ listeners w' = listeners w
      /\ chats w' = chats w
      /\ uncaught w' = uncaught w)
  /\ (forall m0 rest now e _id createdAt text messageUser,
        truthy (receiver w) = true -> truthy (user w) = true ->
        destructure m0 = Ok (_id, createdAt, text, messageUser) ->
        let record := chat_record _id createdAt text messageUser (receiver w) now in
        let w' := onSend (m0 :: rest) now (Rejected e) w in
        exists e',
          console w' = (console w ++ [ConsoleError "Error sending message:" (Some e')])%list
          /\ (encodable record = true -> e' = e)
          /\ messages w' = messages w
          /\ calls w' = (calls w ++ [AddDoc record])%list
          /\ listeners w' = listeners w
          /\ chats w' = chats w
          /\ uncaught w' = uncaught w).
Proof.
  split.
  - intros id l e Hl w'. unfold w', on_snapshot_error. rewrite Hl.
    simpl. repeat split.
  - intros m0 rest now e _id createdAt text messageUser Hr Hu Hd record w'.
    unfold w', onSend. rewrite Hr, Hu. cbn [negb orb nth]. rewrite Hd.
    unfold addDoc. fold record.
    destruct (encodable record).
    + exists e. cbn -[chat_record]. repeat split.
    + exists (FirestoreError "unsupported field value"). cbn -[chat_record].
      repeat split. intros H. discriminate H.
Qed.

Lemma store_failures_logged_view_kept_witness :
  let e := FirestoreError "unavailable" in
  let m0 := JObj [("_id", JStr "m-3"); ("createdAt", JDate 7);
                  ("text", JStr "hi"); ("user", JObj [("_id", JStr "alice@x.com")])] in
  (console (on_snapshot_error 0 e paired)
     = (console paired ++ [ConsoleError "Error fetching messages:" (Some e)])%list
   /\ messages (on_snapshot_error 0 e paired) = messages paired)
  /\ (exists e',
        console (onSend [m0] 9 (Rejected e) paired)
          = (console paired ++ [ConsoleError "Error sending message:" (Some e')])%list
        /\ messages (onSend [m0] 9 (Rejected e) paired) = messages paired
        /\ chats (onSend [m0] 9 (Rejected e) paired) = chats paired).
Proof.
  intros e m0.
  destruct (store_failures_logged_view_kept paired) as [Hlisten Hsend]. split.
  - destruct (Hlisten 0%nat (mkListener 0 (JStr "alice@x.com") (JStr "bob@y.com")) e
                eq_refl) as (Hc & Hm & _).
    split; [exact Hc | exact Hm].
  - destruct (Hsend m0 [] 9 e _ _ _ _ eq_refl eq_refl eq_refl)
      as (e' & Hc & _ & Hm & _ & _ & Hch & _).
    exists e'. split; [exact Hc | split; [exact Hm | exact Hch]].
Defined.

(* ================================================================== *)
(** ** Subscription discipline *)
(* ================================================================== *)

Lemma exclusive_app (t1 t2 : list store_call) :
  forall open,
    exclusive open (t1 ++ t2) =
    match exclusive open t1 with
    | Some open' => exclusive open' t2
    | None => None
    end.
Proof.
  induction t1 as [| c t1 IH]; intros open; simpl; auto.
  destruct c as [id | id | record]; auto.
  - destruct open; auto.
  - destruct open as [id' |]; auto. destruct (id =? id')%nat; auto.
Qed.

Lemma disciplined_initial : disciplined initial.
Proof. split; simpl; auto. Qed.

Lemma disciplined_cleanup (r u : val) (w : world) :
  disciplined w ->
  let w1 := run_cleanup (set_pair r u w) in
  exclusive None (calls w1) = Some None
  /\ listeners w1 = [] /\ cleanup w1 = None
  /\ next_listener w1 = next_listener w
  /\ receiver w1 = r /\ user w1 = u /\ messages w1 = messages w.
Proof.
  intros [Ht Hl _ _]. unfold run_cleanup, set_pair. simpl.
  destruct (cleanup w) as [id |] eqn:Ec; simpl.
  - rewrite exclusive_app, Ht. simpl. rewrite Nat.eqb_refl.
    repeat split; auto.
    destruct (listeners w) as [| l [| l' ls]]; try discriminate.
    simpl in Hl |- *. injection Hl as ->. now rewrite Nat.eqb_refl.
  - repeat split; auto. destruct (listeners w); [auto | discriminate].
Qed.

Lemma disciplined_commit (r u : val) (w : world) :
  disciplined w -> disciplined (step w (Commit r u)).
Proof.
  intros Hd. simpl.
  destruct (disciplined_cleanup r u w Hd) as (Ht & Hl & Hc & Hn & Hr & Hu & _).
  set (w1 := run_cleanup (set_pair r u w)) in *.
  unfold subscription_effect.
  destruct (negb (truthy (receiver w1)) || negb (truthy (user w1))).
  - split; simpl; rewrite ?Hl; auto.
  - unfold onSnapshot. split; simpl; rewrite ?Hl; simpl.
    + now rewrite exclusive_app, Ht.
    + reflexivity.
    + repeat constructor.
    + repeat constructor.
Qed.

Lemma disciplined_unmount (w : world) :
  disciplined w -> disciplined (step w Unmount).
Proof.
  intros Hd. simpl.
  destruct (disciplined_cleanup (receiver w) (user w) w Hd)
    as (Ht & Hl & Hc & _).
  assert (Heq : run_cleanup (set_pair (receiver w) (user w) w) = run_cleanup w)
    by now destruct w.
  rewrite Heq in *. split; rewrite ?Hl, ?Hc; auto.
Qed.

Lemma onSend_frame (msgs : list val) now reply (w : world) :
  let w' := onSend msgs now reply w in
  cleanup w' = cleanup w /\ listeners w' = listeners w
  /\ next_listener w' = next_listener w
  /\ user w' = user w /\ receiver w' = receiver w
  /\ messages w' = messages w
  /\ exists sent, calls w' = (calls w ++ map AddDoc sent)%list.
Proof.
  unfold onSend.
  destruct (negb (truthy (receiver w)) || negb (truthy (user w))).
  - simpl. repeat split. exists []. now rewrite app_nil_r.
  - destruct (destructure (nth 0 msgs JUndefined)) as [[[[i c] t] mu] | e].
    + unfold addDoc.
      destruct (encodable _); [destruct reply |]; simpl; repeat split;
        eexists [_]; reflexivity.
    + simpl. repeat split. exists []. now rewrite app_nil_r.
Qed.

Lemma exclusive_adds (sent : list obj) (open : option nat) :
  exclusive open (map AddDoc sent) = Some open.
Proof. induction sent; simpl; auto. Qed.

Lemma disciplined_step (w : world) (ev : event) :
  disciplined w -> disciplined (step w ev).
Proof.
  intros Hd. destruct ev as [r u | | id docs tick | id e | msgs now reply].
  - now apply disciplined_commit.
  - now apply disciplined_unmount.
  - destruct Hd as [Ht Hl Hf Hp]. simpl. unfold on_snapshot.
    destruct (find_listener id w); [| now split].
    destruct (snapshot_view _ _ docs tick 0%nat) as [[view k] | e]; now split.
  - destruct Hd as [Ht Hl Hf Hp]. simpl. unfold on_snapshot_error.
    destruct (find_listener id w); now split.
  - destruct Hd as [Ht Hl Hf Hp]. simpl.
    destruct (onSend_frame msgs now reply w)
      as (Hc & Hls & Hn & Hu & Hr & _ & sent & Hcalls).
    split; rewrite ?Hcalls, ?Hc, ?Hls, ?Hn, ?Hu, ?Hr; auto.
    now rewrite exclusive_app, Ht, exclusive_adds.
Qed.

Lemma disciplined_from (evs : list event) :
  forall w, disciplined w -> disciplined (fold_left step evs w).
Proof.
  induction evs as [| ev evs IH]; intros w Hd; simpl; auto.
  apply IH. now apply disciplined_step.
Qed.

Lemma disciplined_run (evs : list event) : disciplined (run evs).
Proof. apply disciplined_from, disciplined_initial. Qed.

Lemma find_listener_none (id : nat) (w : world) :
  ~ In id (map l_id (listeners w)) -> find_listener id w = None.
Proof.
  unfold find_listener. generalize (listeners w) as ls.
  induction ls as [| l ls IH]; simpl; auto.
  intros H. destruct (Nat.eqb_spec (l_id l) id) as [Heq | _]; [tauto | auto].
Qed.

Lemma commit_listeners (r u : val) (w : world) :
  disciplined w ->
  Forall (fun l => l_id l = next_listener w) (listeners (step w (Commit r u))).
Proof.
  intros Hd. simpl.
  destruct (disciplined_cleanup r u w Hd) as (_ & Hl & _ & Hn & _).
  set (w1 := run_cleanup (set_pair r u w)) in *.
  unfold subscription_effect.
  destruct (negb (truthy (receiver w1)) || negb (truthy (user w1))); simpl.
  - rewrite Hl. constructor.
  - rewrite Hl, Hn. repeat constructor.
Qed.

Lemma commit_calls (r u : val) (w : world) (id : nat) :
  cleanup w = Some id ->
  exists opened,
    calls (step w (Commit r u)) = (calls w ++ Unsubscribe id :: opened)%list
    /\ (opened = [] \/ opened = [Subscribe (next_listener w)]).
Proof.
  intros Hc. simpl. unfold run_cleanup, set_pair. simpl. rewrite Hc.
  unfold subscription_effect. simpl.
  destruct (negb (truthy r) || negb (truthy u)); simpl.
  - exists []. auto.
  - exists [Subscribe (next_listener w)]. rewrite <- app_assoc. auto.
Qed.

Lemma snapshot_to_closed_listener (id : nat) docs tick (w : world) :
  ~ In id (map l_id (listeners w)) -> step w (Snapshot id docs tick) = w.
Proof.
  intros H. simpl. unfold on_snapshot. now rewrite (find_listener_none id w H).
Qed.

(** C9.  Throughout the life of a screen instance, whatever happens to
    it: at most one listener is open; in the trace of store calls no
    [onSnapshot] is made while a listener is open and every [unsubscribe]
    closes the open one, so the old listener is closed before the next is
    opened; a view update is always computed for the current pair; once
    the pair changes, a snapshot addressed to the listener of the old pair
    changes nothing; and after unmount no listener is left. *)
Theorem at_most_one_live_subscription (evs : list event) :
  let w := run evs in
  (List.length (listeners w) <= 1)%nat
  /\ exclusive None (calls w) = Some (cleanup w)
  /\ map l_id (listeners w) = match cleanup w with Some id => [id] | None => [] end
  /\ (forall id docs tick,
        let w' := step w (Snapshot id docs tick) in
        messages w' = messages w
        \/ exists k, snapshot_view (user w) (receiver w) docs tick 0%nat
                     = Ok (messages w', k))
  /\ (forall l r u docs tick,
        In l (listeners w) ->
        let w1 := step w (Commit r u) in
        (exists opened,
            calls w1 = (calls w ++ Unsubscribe (l_id l) :: opened)%list
            /\ (opened = [] \/ opened = [Subscribe (next_listener w)]))
        /\ find_listener (l_id l) w1 = None
        /\ step w1 (Snapshot (l_id l) docs tick) = w1)
  /\ (forall id docs tick,
        let w1 := step w Unmount in
        listeners w1 = [] /\ step w1 (Snapshot id docs tick) = w1).
Proof.
  intros w. assert (Hd : disciplined w) by apply disciplined_run.
  destruct (disciplined_run evs) as [Ht Hl Hf Hp]. fold w in Ht, Hl, Hf, Hp.
  split; [| split; [exact Ht | split; [exact Hl |]]].
  - rewrite <- (List.length_map l_id), Hl. destruct (cleanup w); simpl; lia.
  - split; [| split].
    + intros id docs tick w'. unfold w'. simpl. unfold on_snapshot, find_listener.
      destruct (find _ (listeners w)) as [l |] eqn:Ef; [| now left].
      apply find_some in Ef as [Hin _].
      rewrite Forall_forall in Hp. destruct (Hp l Hin) as [-> ->].
      destruct (snapshot_view (user w) (receiver w) docs tick 0%nat)
        as [[view k] | e]; [right; now exists k | now left].
    + intros l r u docs tick Hin w1.
      assert (Hdead : ~ In (l_id l) (map l_id (listeners w1))).
      { intros Hin1. apply in_map_iff in Hin1 as (l1 & Heq & Hin1).
        pose proof (commit_listeners r u w Hd) as Hnew.
        rewrite Forall_forall in Hnew, Hf.
        specialize (Hnew l1 Hin1). specialize (Hf l Hin). fold w1 in Hin1. lia. }
      split; [| split; [now apply find_listener_none
                       | now apply snapshot_to_closed_listener]].
      apply commit_calls.
      assert (Hid : In (l_id l) (map l_id (listeners w))) by now apply in_map.
      rewrite Hl in Hid.
      destruct (cleanup w) as [id |]; [| destruct Hid].
      destruct Hid as [<- | []]. reflexivity.
    + intros id docs tick w1.
      assert (Hnone : listeners w1 = []).
      { pose proof (disciplined_cleanup (receiver w) (user w) w Hd) as (_ & H & _).
        unfold w1. simpl.
        replace (run_cleanup w)
          with (run_cleanup (set_pair (receiver w) (user w) w)) by now destruct w.
        exact H. }
      split; [exact Hnone |].
      apply snapshot_to_closed_listener. now rewrite Hnone.
Qed.

Lemma at_most_one_live_subscription_witness :
  calls (run switching) = [Subscribe 0; Unsubscribe 0; Subscribe 1]
  /\ In (mkListener 1 (JStr "alice@x.com") (JStr "carol@z.com")) (listeners (run switching))
  /\ let w1 := step (run switching) (Commit (JStr "bob@y.com") (JStr "alice@x.com")) in
     (exists opened,
         calls w1 = (calls (run switching) ++ Unsubscribe 1 :: opened)%list
         /\ (opened = [] \/ opened = [Subscribe (next_listener (run switching))]))
     /\ find_listener 1 w1 = None
     /\ step w1 (Snapshot 1 sample_docs (fun _ => 0)) = w1.
Proof.
  split; [reflexivity |].
  assert (Hin : In (mkListener 1 (JStr "alice@x.com") (JStr "carol@z.com"))
                   (listeners (run switching))) by (left; reflexivity).
  split; [exact Hin |].
  destruct (at_most_one_live_subscription switching) as (_ & _ & _ & _ & Hswitch & _).
  exact (Hswitch _ (JStr "bob@y.com") (JStr "alice@x.com") sample_docs (fun _ => 0) Hin).
Defined.

(* ================================================================== *)
(** ** More on the subscriber's view *)
(* ================================================================== *)

Lemma in_conversation_sym (u r : val) (m : msg) :
  in_conversation u r m = in_conversation r u m.
Proof. unfold in_conversation. apply orb_comm. Qed.

(** X1.  The two participants of a conversation compute the same view
    from the same snapshot and clock: swapping [user] and [receiver]
    changes nothing in the callback's result. *)
Theorem both_sides_see_the_same_view
    (u r : val) (docs : list doc) (tick : nat -> Z) (n : nat) :
  snapshot_view u r docs tick n = snapshot_view r u docs tick n.
Proof.
  unfold snapshot_view, bind, view_of, filteredMessages.
  destruct (allMessages docs tick n) as [[all k] | e]; auto.
  unfold ret. do 3 f_equal. apply filter_ext. intros m. apply in_conversation_sym.
Qed.

(** X2.  The conversations of one principal do not overlap: a message
    retained for the pair (A, B) and for the pair (A, C) forces B = C. *)
Theorem conversations_do_not_overlap (A B C : string) (m : msg) :
  in_conversation (JStr A) (JStr B) m = true ->
  in_conversation (JStr A) (JStr C) m = true ->
  B = C.
Proof.
  intros H1 H2. apply in_conversation_true in H1, H2.
  destruct H1 as [[Hu1 Hr1] | [Hu1 Hr1]], H2 as [[Hu2 Hr2] | [Hu2 Hr2]];
    congruence.
Qed.

Lemma conversations_do_not_overlap_witness :
  in_conversation (JStr "alice@x.com") (JStr "bob@y.com") (nth 0 sample_feed []) = true
  /\ "bob@y.com" = "bob@y.com".
Proof.
  split; [reflexivity |].
  exact (conversations_do_not_overlap "alice@x.com" "bob@y.com" "bob@y.com"
           (nth 0 sample_feed []) eq_refl eq_refl).
Defined.

Lemma mapDoc_shape (d : doc) tick n m n' :
  mapDoc d tick n = Ok (m, n') -> exists t, m = message_of d (JDate t).
Proof.
  unfold mapDoc, bind, ret.
  destruct (createdAt_of (doc_data d) tick n) as [[v k] | e] eqn:E; [| discriminate].
  destruct (createdAt_of_date _ _ _ _ _ E) as [t ->].
  intros H. injection H as <- _. now exists t.
Qed.

Lemma allMessages_shape (docs : list doc) tick :
  forall n all n', allMessages docs tick n = Ok (all, n') ->
    Forall2 (fun d m => exists k k', mapDoc d tick k = Ok (m, k')) docs all.
Proof.
  induction docs as [| d docs IH]; intros n all n'.
  - simpl. unfold ret. intros H. injection H as <- _. constructor.
  - rewrite allMessages_cons.
    destruct (mapDoc d tick n) as [[m k] | e] eqn:Em; [| discriminate].
    destruct (allMessages docs tick k) as [[ms k'] | e] eqn:Ea; [| discriminate].
    intros H. injection H as <- _.
    constructor; [now exists n, k | eapply IH; eauto].
Qed.

(** X3.  A view holds nothing but messages built from the documents of
    its snapshot: every document is mapped to one message, in order, and
    the view is a rearrangement of the messages the filter retains
    (sorting neither drops nor repeats a message). *)
Theorem view_is_made_of_the_snapshot
    (u r : val) (docs : list doc) (tick : nat -> Z) (n n' : nat) (view : list msg) :
  snapshot_view u r docs tick n = Ok (view, n') ->
  exists all,
    allMessages docs tick n = Ok (all, n')
    /\ Forall2 (fun d m => exists t, m = message_of d (JDate t)) docs all
    /\ Permutation view (filter (in_conversation u r) all)
    /\ (List.length view <= List.length docs)%nat.
Proof.
  unfold snapshot_view, bind, ret.
  destruct (allMessages docs tick n) as [[all k] | e] eqn:Ea; [| discriminate].
  intros H. injection H as <- <-. exists all.
  assert (Hshape : Forall2 (fun d m => exists t, m = message_of d (JDate t)) docs all).
  { eapply Forall2_impl; [| eapply allMessages_shape; eauto].
    intros d m (k1 & k2 & Hm). eapply mapDoc_shape; eauto. }
  assert (Hperm : Permutation (view_of u r all) (filter (in_conversation u r) all))
    by apply sort_desc_perm.
  repeat split; auto.
  rewrite (Permutation_length Hperm), (Forall2_length Hshape).
  apply filter_length_le.
Qed.

Lemma view_is_made_of_the_snapshot_witness :
  snapshot_view (JStr "bob@y.com") (JStr "alice@x.com") sample_docs (fun _ => 0) 0%nat
    = Ok (sample_view, 0%nat)
  /\ exists all,
      allMessages sample_docs (fun _ => 0) 0%nat = Ok (all, 0%nat)
      /\ Forall2 (fun d m => exists t, m = message_of d (JDate t)) sample_docs all
      /\ Permutation sample_view
           (filter (in_conversation (JStr "bob@y.com") (JStr "alice@x.com")) all)
      /\ (List.length sample_view <= List.length sample_docs)%nat.
Proof.
  split; [reflexivity |].
  apply (view_is_made_of_the_snapshot (JStr "bob@y.com") (JStr "alice@x.com")
           sample_docs (fun _ => 0) 0%nat 0%nat sample_view).
  reflexivity.
Defined.

(** X4.  The [id] of a message is the document's id unless the document's
    data has an [id] field of its own, which then takes its place (the
    spread comes after [id: doc.id]); [createdAt] is always the date the
    callback computed, whatever the data held. *)
Theorem data_id_shadows_document_id
    (d : doc) (tick : nat -> Z) (n n' : nat) (m : msg) :
  well_keyed (doc_data d) ->
  mapDoc d tick n = Ok (m, n') ->
  field m "id" = match lookup "id" (doc_data d) with
                 | Some v => v
                 | None => JStr (doc_id d)
                 end
  /\ exists t, field m "createdAt" = JDate t.
Proof.
  intros Hk Hm. destruct (mapDoc_shape _ _ _ _ _ Hm) as [t ->].
  rewrite !message_of_field by assumption. simpl. split; eauto.
Qed.

Lemma data_id_shadows_document_id_witness :
  well_keyed (doc_data doc_with_own_id)
  /\ mapDoc doc_with_own_id (fun _ => 0) 0%nat
     = Ok (message_of doc_with_own_id (JDate 5), 0%nat)
  /\ field (message_of doc_with_own_id (JDate 5)) "id" = JNum 42.
Proof.
  assert (Hk : well_keyed (doc_data doc_with_own_id)).
  { unfold well_keyed. simpl. repeat constructor; simpl; intuition discriminate. }
  split; [exact Hk | split; [reflexivity |]].
  exact (proj1 (data_id_shadows_document_id doc_with_own_id (fun _ => 0) 0%nat 0%nat
                  _ Hk eq_refl)).
Defined.

(* ================================================================== *)
(** ** More on the submission path *)
(* ================================================================== *)

(** X5.  The date a record is written with is the date its message is
    shown with: when the record's [createdAt] is a date (the message's
    own, or the instant of the send when the message has none), the
    stored document is mapped without reading the clock, back to that
    same date, and [text], [user] and [receiver] come back as stored. *)
Theorem sent_date_survives_the_store
    (_id createdAt text messageUser recv : val) (now t : Z)
    (docid : string) (tick : nat -> Z) (n : nat) :
  or_else createdAt (JDate now) = JDate t ->
  let record := chat_record _id createdAt text messageUser recv now in
  let d := mkDoc docid (stored record) in
  exists m,
    mapDoc d tick n = Ok (m, n)
    /\ field m "createdAt" = JDate t
    /\ field m "text" = to_firestore text
    /\ field m "user" = to_firestore messageUser
    /\ field m "receiver" = to_firestore recv
    /\ field m "id" = JStr docid.
Proof.
  intros Hc record d. exists (message_of d (JDate t)).
  assert (Hk : well_keyed (doc_data d)).
  { unfold well_keyed. simpl. repeat constructor; simpl; intuition discriminate. }
  split.
  - unfold mapDoc, bind, createdAt_of, has_toDate, d, record, chat_record, stored.
    simpl. rewrite Hc. reflexivity.
  - rewrite !message_of_field by exact Hk. repeat split.
Qed.

Lemma sent_date_survives_the_store_witness :
  or_else JUndefined (JDate 77) = JDate 77
  /\ exists m,
      mapDoc (mkDoc "d" (stored (chat_record (JStr "i") JUndefined (JStr "hi")
                                   (JStr "alice@x.com") (JStr "bob@y.com") 77)))
             (fun _ => 0) 3%nat = Ok (m, 3%nat)
      /\ field m "createdAt" = JDate 77
      /\ field m "text" = to_firestore (JStr "hi")
      /\ field m "user" = to_firestore (JStr "alice@x.com")
      /\ field m "receiver" = to_firestore (JStr "bob@y.com")
      /\ field m "id" = JStr "d".
Proof.
  split; [reflexivity |].
  exact (sent_date_survives_the_store (JStr "i") JUndefined (JStr "hi")
           (JStr "alice@x.com") (JStr "bob@y.com") 77 77 "d" (fun _ => 0) 3%nat eq_refl).
Defined.

(** X6.  [onSend] called with no message (an empty array, or a first
    element that is [undefined] or [null]) while the pair is set: the
    destructuring throws inside the [try], the error is printed, and the
    store is not called. *)
Theorem send_of_nothing_is_caught
    (w : world) (msgs : list val) (now : Z) (reply : store_reply) :
  truthy (receiver w) = true -> truthy (user w) = true ->
  nth 0 msgs JUndefined = JUndefined \/ nth 0 msgs JUndefined = JNull ->
  let w' := onSend msgs now reply w in
  console w' = (console w ++ [ConsoleError "Error sending message:"
                                (Some (TypeError "cannot destructure"))])%list
  /\ calls w' = calls w
  /\ chats w' = chats w
  /\ messages w' = messages w
  /\ uncaught w' = uncaught w.
Proof.
  intros Hr Hu Hm w'. unfold w', onSend. rewrite Hr, Hu. cbn [negb orb].
  destruct Hm as [-> | ->]; simpl; repeat split.
Qed.

Lemma send_of_nothing_is_caught_witness :
  let w' := onSend [] 5 Accepted paired in
  console w' = (console paired ++ [ConsoleError "Error sending message:"
                                     (Some (TypeError "cannot destructure"))])%list
  /\ calls w' = calls paired
  /\ chats w' = chats paired
  /\ messages w' = messages paired
  /\ uncaught w' = uncaught paired.
Proof.
  apply (send_of_nothing_is_caught paired [] 5 Accepted);
    [reflexivity | reflexivity | left; reflexivity].
Defined.

(** X7.  A message that lacks [_id], [text] or [user] gives a record with
    an [undefined] field: the client refuses it before anything reaches
    the backend, whatever the backend would have answered; the refusal is
    printed and no document is written. *)
Theorem incomplete_message_is_not_written
    (w : world) (m0 : val) (rest : list val) (now : Z) (reply : store_reply)
    (_id createdAt text messageUser : val) :
  truthy (receiver w) = true -> truthy (user w) = true ->
  destructure m0 = Ok (_id, createdAt, text, messageUser) ->
  _id = JUndefined \/ text = JUndefined \/ messageUser = JUndefined ->
  let w' := onSend (m0 :: rest) now reply w in
  console w' = (console w ++ [ConsoleError "Error sending message:"
                                (Some (FirestoreError "unsupported field value"))])%list
  /\ chats w' = chats w
  /\ messages w' = messages w.
Proof.
  intros Hr Hu Hd Hmiss w'. unfold w', onSend. rewrite Hr, Hu. cbn [negb orb nth].
  rewrite Hd. unfold addDoc.
  assert (Henc : encodable (chat_record _id createdAt text messageUser (receiver w) now)
                 = false).
  { unfold encodable, chat_record. cbn [forallb snd].
    destruct Hmiss as [-> | [-> | ->]]; cbn [storable andb];
      rewrite ?andb_false_r; reflexivity. }
  rewrite Henc. simpl. repeat split.
Qed.

Lemma incomplete_message_is_not_written_witness :
  let m0 := JObj [("_id", JStr "m-9"); ("user", JObj [("_id", JStr "alice@x.com")])] in
  let w' := onSend [m0] 5 Accepted paired in
  console w' = (console paired ++ [ConsoleError "Error sending message:"
                                     (Some (FirestoreError "unsupported field value"))])%list
  /\ chats w' = chats paired
  /\ messages w' = messages paired.
Proof.
  intros m0.
  apply (incomplete_message_is_not_written paired m0 [] 5 Accepted
           (JStr "m-9") JUndefined JUndefined (JObj [("_id", JStr "alice@x.com")]));
    [reflexivity | reflexivity | reflexivity | right; left; reflexivity].
Defined.

(** X8.  [onSend] is fire-and-forget: whatever it is given and whatever
    the store answers, it prints exactly one console entry, calls the
    store at most once, writes at most one document, and leaves the view,
    the pair and the listeners alone (no local insertion of the sent
    message). *)
Theorem send_never_touches_the_view
    (w : world) (msgs : list val) (now : Z) (reply : store_reply) :
  let w' := onSend msgs now reply w in
  messages w' = messages w
  /\ receiver w' = receiver w /\ user w' = user w
  /\ listeners w' = listeners w /\ cleanup w' = cleanup w
  /\ uncaught w' = uncaught w
  /\ (exists entry, console w' = (console w ++ [entry])%list)
  /\ (calls w' = calls w \/ exists record, calls w' = (calls w ++ [AddDoc record])%list)
  /\ (chats w' = chats w \/ exists data, chats w' = (chats w ++ [data])%list).
Proof.
  unfold onSend.
  destruct (negb (truthy (receiver w)) || negb (truthy (user w))).
  - simpl. repeat split; eauto.
  - destruct (destructure (nth 0 msgs JUndefined)) as [[[[i c] t] mu] | e].
    + unfold addDoc.
      destruct (encodable _); [destruct reply |]; simpl; repeat split; eauto.
    + simpl. repeat split; eauto.
Qed.

(** *** The text the send button passes on *)










(* ================================================================== *)
(** ** What the screen shows *)
(* ================================================================== *)

Lemma strict_eq_eq (a b : val) : strict_eq a b = true -> a = b.
Proof.
  destruct a, b; simpl; try discriminate; auto; intros H.
  - apply Bool.eqb_prop in H. now subst.
  - apply Z.eqb_eq in H. now subst.
  - apply String.eqb_eq in H. now subst.
Qed.

Lemma truthy_sender_has_members (x : val) (k : string) :
  truthy (sender_of x) = true -> member x k = Ok (opt_member x k).
Proof.
  destruct x; simpl; auto; discriminate.
Qed.

Lemma retained_is_renderable (u r email : val) (m : msg) :
  truthy u = true -> truthy r = true ->
  in_conversation u r m = true ->
  field m "createdAt" = JDate (createdAt_ms m) ->
  renderable email m.
Proof.
  intros Hu Hr Hin Hdate.
  assert (Hs : truthy (sender_of (field m "user")) = true).
  { unfold in_conversation, msgUser in Hin.
    apply orb_true_iff in Hin as [H | H]; apply andb_true_iff in H as [H _];
      apply strict_eq_eq in H; now rewrite H. }
  unfold renderable, is_own_message, avatar_uri.
  rewrite !(truthy_sender_has_members _ _ Hs). repeat split; eauto.
  eexists. split; [reflexivity |].
  unfold or_else. destruct (truthy (opt_member (field m "user") "avatar")) eqn:E; auto.
Qed.

Lemma in_order_step (w : world) (ev : event) : in_order w -> in_order (step w ev).
Proof.
  intros (Hd & Hl & Hm). split; [now apply disciplined_step |].
  destruct ev as [r u | | id docs tick | id e | msgs now reply].
  - simpl. destruct (disciplined_cleanup r u w Hd) as (_ & Hnil & _ & _ & Hr & Hu & Hmsg).
    set (w1 := run_cleanup (set_pair r u w)) in *.
    unfold subscription_effect.
    destruct (truthy (receiver w1)) eqn:Tr, (truthy (user w1)) eqn:Tu; simpl;
      rewrite ?Hnil, ?Hmsg; split; auto.
    repeat constructor; auto.
  - simpl. destruct (disciplined_cleanup (receiver w) (user w) w Hd)
      as (_ & Hnil & _ & _ & _ & _ & Hmsg).
    replace (run_cleanup w)
      with (run_cleanup (set_pair (receiver w) (user w) w)) by now destruct w.
    rewrite Hnil, Hmsg. split; auto.
  - simpl. unfold on_snapshot, find_listener.
    destruct (find _ (listeners w)) as [l |] eqn:Ef; [| now split].
    apply find_some in Ef as [Hin _].
    rewrite Forall_forall in Hl. destruct (Hl l Hin) as [Tu Tr].
    unfold snapshot_view, bind, ret.
    destruct (allMessages docs tick 0%nat) as [[all k] | e] eqn:Ea; simpl.
    + split; [now apply Forall_forall |].
      intros email. apply Forall_forall. intros m Hm'.
      apply in_view_of in Hm' as [Hall Hconv].
      apply (retained_is_renderable (l_user l) (l_receiver l)); auto.
      apply allMessages_createdAt in Ea. rewrite Forall_forall in Ea. auto.
    + split; [now apply Forall_forall | auto].
  - simpl. unfold on_snapshot_error. destruct (find_listener id w); now split.
  - simpl. destruct (onSend_frame msgs now reply w) as (_ & Hls & _ & _ & _ & Hmsg & _).
    rewrite Hls, Hmsg. now split.
Qed.

Lemma in_order_run (evs : list event) : in_order (run evs).
Proof.
  unfold run.
  assert (H : forall w, in_order w -> in_order (fold_left step evs w)).
  { induction evs as [| ev evs IH]; intros w Hw; simpl; auto.
    apply IH. now apply in_order_step. }
  apply H. split; [apply disciplined_initial |]. simpl. split; auto.
Qed.

(** X10.  Whatever has happened to the screen, every message in its view
    can be drawn: [props.currentMessage.user._id] and
    [props.currentMessage.user.avatar] are read without an exception (the
    filter never lets a message through whose [user] is [undefined] or
    [null]), the avatar source is never falsy, and [createdAt] is a
    date. *)
Theorem every_shown_message_is_renderable
    (evs : list event) (email : val) (m : msg) :
  In m (messages (run evs)) -> renderable email m.
Proof.
  intros Hin. destruct (in_order_run evs) as (_ & _ & Hm).
  specialize (Hm email). rewrite Forall_forall in Hm. auto.
Qed.

Lemma every_shown_message_is_renderable_witness :
  In (nth 0 sample_view []) (messages (run switching))
  /\ renderable (JStr "alice@x.com") (nth 0 sample_view []).
Proof.
  assert (Hin : In (nth 0 sample_view []) (messages (run switching)))
    by (left; reflexivity).
  split; [exact Hin |].
  exact (every_shown_message_is_renderable switching (JStr "alice@x.com") _ Hin).
Defined.

(** X11.  The screen listens only for a complete pair: whatever has
    happened, an open listener closed over a truthy [user] and a truthy
    [receiver], and they are the current ones. *)
Theorem listener_only_for_a_complete_pair (evs : list event) (l : listener) :
  In l (listeners (run evs)) ->
  truthy (l_user l) = true /\ truthy (l_receiver l) = true
  /\ l_user l = user (run evs) /\ l_receiver l = receiver (run evs).
Proof.
  intros Hin. destruct (in_order_run evs) as ([_ _ _ Hp] & Hl & _).
  rewrite Forall_forall in Hp, Hl.
  destruct (Hl l Hin) as [Tu Tr]. destruct (Hp l Hin) as [Eu Er]. auto.
Qed.

Lemma listener_only_for_a_complete_pair_witness :
  let l := mkListener 1 (JStr "alice@x.com") (JStr "carol@z.com") in
  In l (listeners (run switching))
  /\ truthy (l_user l) = true /\ truthy (l_receiver l) = true
  /\ l_user l = user (run switching) /\ l_receiver l = receiver (run switching).
Proof.
  intros l.
  assert (Hin : In l (listeners (run switching))) by (left; reflexivity).
  split; [exact Hin |].
  exact (listener_only_for_a_complete_pair switching l Hin).
Defined.

(** X12.  A bubble is drawn as the viewer's own exactly when the
    message's [user] is an object whose [_id] is the viewer's email.  So
    a message whose [user] is the bare email string is retained by the
    filter as the viewer's, yet drawn as somebody else's. *)
Theorem own_bubble_needs_user_object (email other : string) (m : msg) :
  (is_own_message (JStr email) m = Ok true <->
     exists props, field m "user" = JObj props
                   /\ lookup "_id" props = Some (JStr email))
  /\ (field m "user" = JStr email -> field m "receiver" = JStr other ->
        in_conversation (JStr email) (JStr other) m = true
        /\ is_own_message (JStr email) m = Ok false).
Proof.
  split.
  - unfold is_own_message, member. split.
    + intros H. destruct (field m "user") eqn:E; simpl in H; try discriminate H.
      destruct (lookup "_id" props) as [x |] eqn:El; [| discriminate H].
      injection H as H. apply strict_eq_str in H. subst x.
      now exists props.
    + intros (props & -> & Hl). unfold opt_member. rewrite Hl. simpl.
      now rewrite String.eqb_refl.
  - intros Hu Hr. split.
    + apply in_conversation_true. left. unfold msgUser, msgReceiver.
      rewrite Hu, Hr. split; auto.
    + unfold is_own_message. rewrite Hu. reflexivity.
Qed.

Lemma own_bubble_needs_user_object_witness :
  let m := nth 1 sample_feed [] in
  field m "user" = JStr "bob@y.com" /\ field m "receiver" = JStr "alice@x.com"
  /\ in_conversation (JStr "bob@y.com") (JStr "alice@x.com") m = true
  /\ is_own_message (JStr "bob@y.com") m = Ok false.
Proof.
  intros m. split; [reflexivity | split; [reflexivity |]].
  exact (proj2 (own_bubble_needs_user_object "bob@y.com" "alice@x.com" m)
               eq_refl eq_refl).
Defined.




(** X14.  [fetchAvatar]: an empty result leaves the avatar as it was; of
    several documents the last one decides, also when it has no avatar
    field; a failed query is printed and leaves the avatar as it was.  In
    every case the [user] prop handed to GiftedChat carries a truthy
    avatar, the default picture standing in for a falsy one. *)
Theorem avatar_follows_the_last_document
    (st : val * list console_entry) (email : val) :
  fetchAvatar (Ok []) st = st
  /\ (forall docs d,
        fetchAvatar (Ok (docs ++ [d])%list) st = (field (doc_data d) "avatar", snd st))
  /\ (forall e, fst (fetchAvatar (Throw e) st) = fst st
                /\ snd (fetchAvatar (Throw e) st)
                   = (snd st ++ [ConsoleError "Error fetching avatar: " (Some e)])%list)
  /\ (forall reply,
        truthy (opt_member (user_prop email (fst (fetchAvatar reply st))) "avatar") = true).
Proof.
  split; [now destruct st |]. split.
  - intros docs d. unfold fetchAvatar. now rewrite fold_left_app.
  - split; [intros e; split; reflexivity |].
    intros reply. unfold user_prop, or_else. simpl.
    destruct (truthy (fst (fetchAvatar reply st))) eqn:E; auto.
Qed.

(* ================================================================== *)
(** ** Opening a conversation from the buddy list *)
(* ================================================================== *)

Lemma press_one (email : val) (item : obj) (st : val * val) :
  route_effect (navigate_params email item) st =
  if truthy (field item "email")
  then (field item "email", JBool (strict_eq (field item "email") email))
  else st.
Proof.
  unfold route_effect, navigate_params. simpl.
  destruct (truthy (field item "email")); auto.
  unfold or_else. simpl. now destruct (strict_eq (field item "email") email).
Qed.

(** X15.  However many cards are pressed in the buddy list, the chat
    screen's self-chat flag says exactly whether its receiver is the
    signed-in email, and the receiver is still unset or is the truthy
    email of a pressed card; pressing a card whose user has no (or a
    falsy) email changes nothing. *)
Theorem self_chat_flag_tracks_receiver (email : string) (items : list obj) :
  let st := press_all (JStr email) items (JNull, JBool false) in
  snd st = JBool (strict_eq (fst st) (JStr email))
  /\ (fst st = JNull
      \/ exists item, In item items /\ fst st = field item "email"
                      /\ truthy (fst st) = true)
  /\ (forall item, truthy (field item "email") = false ->
        route_effect (navigate_params (JStr email) item) st = st).
Proof.
  intros st. split; [| split].
  - unfold st, press_all.
    assert (H : forall s0, snd s0 = JBool (strict_eq (fst s0) (JStr email)) ->
              let s := fold_left (fun acc item =>
                         route_effect (navigate_params (JStr email) item) acc) items s0 in
              snd s = JBool (strict_eq (fst s) (JStr email))).
    { induction items as [| item items IH]; intros s0 H0; simpl; auto.
      apply IH. rewrite press_one. destruct (truthy (field item "email")); auto. }
    now apply H.
  - unfold st, press_all.
    assert (H : forall s0,
              (fst s0 = JNull \/ truthy (fst s0) = true) ->
              let s := fold_left (fun acc item =>
                         route_effect (navigate_params (JStr email) item) acc) items s0 in
              s = s0
              \/ exists item, In item items /\ fst s = field item "email"
                              /\ truthy (fst s) = true).
    { induction items as [| item items IH]; intros s0 H0; simpl; auto.
      rewrite press_one. destruct (truthy (field item "email")) eqn:T.
      - right. destruct (IH (field item "email",
                             JBool (strict_eq (field item "email") (JStr email))))
          as [-> | (it & Hin & Hf & Ht)]; simpl; auto.
        + exists item. auto.
        + exists it. auto.
      - destruct (IH s0 H0) as [-> | (it & Hin & Hf & Ht)]; auto.
        right. exists it. auto. }
    destruct (H (JNull, JBool false)) as [-> | Hex]; simpl; auto.
  - intros item Hf. now rewrite press_one, Hf.
Qed.

Lemma self_chat_flag_tracks_receiver_witness :
  let me := [("id", JStr "a1"); ("email", JStr "alice@x.com")] in
  let nobody := [("id", JStr "a2"); ("avatar", JStr "pic")] in
  press_all (JStr "alice@x.com") [me; nobody] (JNull, JBool false)
    = (JStr "alice@x.com", JBool true)
  /\ route_effect (navigate_params (JStr "alice@x.com") nobody)
       (press_all (JStr "alice@x.com") [me; nobody] (JNull, JBool false))
     = press_all (JStr "alice@x.com") [me; nobody] (JNull, JBool false).
Proof.
  intros me nobody. split; [reflexivity |].
  exact (proj2 (proj2 (self_chat_flag_tracks_receiver "alice@x.com" [me; nobody]))
               nobody eq_refl).
Defined.

Lemma find_is_first_kept {A} (p : A -> bool) (l : list A) :
  find p l = hd_error (filter p l).
Proof.
  induction l as [| x l IH]; simpl; auto. destruct (p x); auto.
Qed.

Lemma filter_split_perm {A} (p : A -> bool) (l : list A) :
  Permutation (filter p l ++ filter (fun x => negb (p x)) l) l.
Proof.
  induction l as [| x l IH]; simpl; auto.
  destruct (p x); simpl.
  - now constructor.
  - rewrite <- Permutation_middle. now constructor.
Qed.

(** X16.  The buddy list as [fetchUsers] arranges it: it holds only
    fetched users; every user with another email is listed, in the
    fetched order; when some fetched user has the signed-in email, the
    first such user heads the list and nobody after the head has that
    email (further documents with the signed-in email are left out);
    and when at most one fetched user has the signed-in email, the list
    is a rearrangement of what was fetched. *)
Theorem buddy_list_arrangement
    (email : val) (docs : list doc) (st : list obj * list console_entry) :
  let fetched := map user_of_doc docs in
  let users := fst (fetchUsers email (Ok docs) st) in
  (forall u, In u users -> In u fetched)
  /\ filter (fun u => negb (is_current email u)) users
     = filter (fun u => negb (is_current email u)) fetched
  /\ (forall u, In u fetched -> is_current email u = true ->
        exists cur rest,
          users = cur :: rest
          /\ find (is_current email) fetched = Some cur
          /\ is_current email cur = true
          /\ Forall (fun v => is_current email v = false) rest)
  /\ ((List.length (filter (is_current email) fetched) <= 1)%nat ->
        Permutation users fetched)
  /\ (forall e, fetchUsers email (Throw e) st
                = (fst st, (snd st ++ [ConsoleError "Error fetching users:" (Some e)])%list)).
Proof.
  intros fetched users. unfold users, fetchUsers, arrange_users. simpl. fold fetched.
  set (others := filter (fun u => negb (is_current email u)) fetched).
  assert (Hothers : Forall (fun v => is_current email v = false) others).
  { apply Forall_forall. intros v Hv. apply filter_In in Hv as [_ Hv].
    now apply negb_true_iff in Hv. }
  assert (Hidem : filter (fun u => negb (is_current email u)) others = others).
  { apply forallb_filter_id. apply forallb_forall. intros v Hv.
    apply filter_In in Hv as [_ Hv]. exact Hv. }
  destruct (find (is_current email) fetched) as [cur |] eqn:Ef.
  - destruct (find_some _ _ Ef) as [Hin Hcur]. repeat split.
    + intros u [<- | Hu]; auto. now apply filter_In in Hu as [Hu _].
    + simpl. now rewrite Hcur.
    + intros u _ _. exists cur, others. auto.
    + intros Hle. rewrite find_is_first_kept in Ef.
      destruct (filter (is_current email) fetched) as [| c [| c' cs]] eqn:Efil;
        try discriminate; [| simpl in Hle; lia].
      injection Ef as ->.
      change (cur :: others) with ([cur] ++ others)%list. rewrite <- Efil.
      apply filter_split_perm.
  - repeat split.
    + intros u Hu. now apply filter_In in Hu as [Hu _].
    + exact Hidem.
    + intros u Hin Hcur. pose proof (find_none _ _ Ef u Hin) as Hnone. congruence.
    + intros _. rewrite find_is_first_kept in Ef.
      destruct (filter (is_current email) fetched) eqn:Efil; [| discriminate].
      change others with ([] ++ others)%list. rewrite <- Efil.
      apply filter_split_perm.
Qed.

Lemma buddy_list_arrangement_witness :
  let users := fst (fetchUsers (JStr "alice@x.com") (Ok fetched_docs) ([], [])) in
  users = [user_of_doc (nth 1 fetched_docs undated_doc);
           user_of_doc (nth 0 fetched_docs undated_doc);
           user_of_doc (nth 2 fetched_docs undated_doc)]
  /\ exists cur rest,
      users = cur :: rest
      /\ find (is_current (JStr "alice@x.com")) (map user_of_doc fetched_docs) = Some cur
      /\ is_current (JStr "alice@x.com") cur = true
      /\ Forall (fun v => is_current (JStr "alice@x.com") v = false) rest.
Proof.
  intros users. split; [reflexivity |].
  destruct (buddy_list_arrangement (JStr "alice@x.com") fetched_docs ([], []))
    as (_ & _ & Hhead & _).
  apply (Hhead (user_of_doc (nth 3 fetched_docs undated_doc)));
    [right; right; right; left |]; reflexivity.
Defined.

(* ================================================================== *)
(** ** The theme provider *)
(* ================================================================== *)

Lemma getItem_setItem (k v : string) (st : storage) :
  getItem k (setItem k v st) = Some v.
Proof.
  induction st as [| [k' v'] st IH]; simpl.
  - now rewrite String.eqb_refl.
  - destruct (k =? k')%string eqn:E; simpl; rewrite E; auto.
Qed.

Lemma theme_consistent_step (a : theme_app) (ev : theme_event) :
  theme_consistent a -> theme_consistent (theme_step a ev).
Proof.
  intros Ha. destruct ev as [[e |] | [e |] |]; simpl; auto.
  - unfold loadTheme. destruct (getItem "theme" (disk a)) as [saved |]; auto.
    destruct (saved =? "dark")%string; split; reflexivity.
  - unfold toggleTheme. simpl. destruct (isDark a); split; reflexivity.
  - unfold toggleTheme. simpl. destruct (isDark a); split; reflexivity.
  - split; reflexivity.
Qed.

Lemma theme_consistent_run (st : storage) (evs : list theme_event) :
  theme_consistent (theme_run st evs).
Proof.
  unfold theme_run.
  assert (H : forall a, theme_consistent a -> theme_consistent (fold_left theme_step evs a)).
  { induction evs as [| ev evs IH]; intros a Ha; simpl; auto.
    apply IH. now apply theme_consistent_step. }
  apply H. split; reflexivity.
Qed.

(** X17.  The theme object and the dark-mode flag never disagree:
    whatever the storage holds and whatever sequence of loads, toggles
    (saved or not) and restarts happens, the theme handed to the screens
    is the dark theme exactly when [isDark] is true, and its own
    [isDark] field equals the flag. *)
Theorem theme_matches_flag (st : storage) (evs : list theme_event) :
  let a := theme_run st evs in
  theme a = (if isDark a then darkTheme else lightTheme)
  /\ field (theme a) "isDark" = JBool (isDark a).
Proof. apply theme_consistent_run. Qed.

(** X18.  The preference survives a restart exactly when it was saved:
    after a toggle whose write succeeded, restarting the app and loading
    gives the flag and theme the toggle chose; after a toggle whose write
    failed, the screen shows the new theme until the restart, the failure
    is printed, and restarting and loading gives what it would have given
    without the toggle. *)
Theorem theme_survives_restart_when_saved (a : theme_app) (e : exn) :
  (let saved := toggleTheme None a in
   let back := loadTheme None (theme_step saved Restart) in
   isDark back = negb (isDark a)
   /\ isDark back = isDark saved /\ theme back = theme saved)
  /\ (let unsaved := toggleTheme (Some e) a in
      isDark unsaved = negb (isDark a)
      /\ disk unsaved = disk a
      /\ theme_console unsaved
         = (theme_console a ++ [ConsoleError "Error saving theme:" (Some e)])%list
      /\ isDark (loadTheme None (theme_step unsaved Restart))
         = isDark (loadTheme None (theme_step a Restart))
      /\ theme (loadTheme None (theme_step unsaved Restart))
         = theme (loadTheme None (theme_step a Restart))).
Proof.
  split.
  - simpl. unfold loadTheme, toggleTheme. simpl. rewrite getItem_setItem.
    destruct (isDark a); simpl; auto.
  - simpl. unfold loadTheme, toggleTheme. simpl.
    destruct (getItem "theme" (disk a)); repeat split.
Qed.

(** X19.  Two toggles whose writes succeed bring back the flag and the
    theme shown, and leave in storage the name of that theme. *)
Theorem two_toggles_restore_theme (st : storage) (evs : list theme_event) :
  let a := theme_run st evs in
  let b := toggleTheme None (toggleTheme None a) in
  isDark b = isDark a
  /\ theme b = theme a
  /\ getItem "theme" (disk b) = Some (if isDark a then "dark" else "light").
Proof.
  intros a b. destruct (theme_consistent_run st evs) as [Ht _]. fold a in Ht.
  unfold b, toggleTheme. simpl. rewrite Ht, negb_involutive, getItem_setItem.
  destruct (isDark a); auto.
Qed.

(** X20.  What a fresh start shows: the dark theme exactly when the
    stored preference is the string "dark"; with no stored preference,
    with "light", or with any other string, the light theme; and when
    reading the storage fails, the light theme with the failure
    printed. *)
Theorem start_is_dark_only_for_dark (st : storage) (log : list console_entry) (e : exn) :
  (isDark (loadTheme None (fresh_provider st log)) = true
     <-> getItem "theme" st = Some "dark")
  /\ (getItem "theme" st <> Some "dark" ->
        theme (loadTheme None (fresh_provider st log)) = lightTheme)
  /\ (getItem "theme" st = Some "dark" ->
        theme (loadTheme None (fresh_provider st log)) = darkTheme)
  /\ loadTheme (Some e) (fresh_provider st log)
     = mkThemeApp false lightTheme st
         (log ++ [ConsoleError "Error loading theme:" (Some e)]).
Proof.
  unfold loadTheme, fresh_provider. simpl.
  destruct (getItem "theme" st) as [saved |] eqn:E; simpl.
  - destruct (String.eqb_spec saved "dark") as [-> | Hne]; simpl.
    + repeat split; auto. intros H. now contradiction H.
    + repeat split; auto; try discriminate; intros H; injection H as ->; tauto.
  - repeat split; auto; discriminate.
Qed.

Lemma start_is_dark_only_for_dark_witness :
  getItem "theme" [("theme", "blue")] <> Some "dark"
  /\ theme (loadTheme None (fresh_provider [("theme", "blue")] [])) = lightTheme.
Proof.
  assert (H : getItem "theme" [("theme", "blue")] <> Some "dark") by discriminate.
  split; [exact H |].
  destruct (start_is_dark_only_for_dark [("theme", "blue")] [] (TypeError "x"))
    as (_ & Hlight & _).
  exact (Hlight H).
Defined.

(* ================================================================== *)
(** ** The avatar document *)
(* ================================================================== *)

Lemma replace_doc_found (id : string) (data : obj) (coll : list doc) (d : doc) :
  In d coll -> doc_id d = id -> exists coll', replace_doc id data coll = Some coll'.
Proof.
  induction coll as [| x coll IH]; simpl; [tauto |].
  intros Hin Hid. destruct (doc_id x =? id)%string eqn:E; [eauto |].
  destruct Hin as [-> | Hin].
  - rewrite Hid, String.eqb_refl in E. discriminate.
  - destruct (IH Hin Hid) as [coll' ->]. eauto.
Qed.

Lemma replace_doc_length (id : string) (data : obj) (coll coll' : list doc) :
  replace_doc id data coll = Some coll' -> List.length coll' = List.length coll.
Proof.
  revert coll'. induction coll as [| x coll IH]; simpl; intros coll'; [discriminate |].
  destruct (doc_id x =? id)%string.
  - intros H. now injection H as <-.
  - destruct (replace_doc id data coll) as [rest |]; [| discriminate].
    intros H. injection H as <-. simpl. now rewrite (IH rest).
Qed.

Lemma by_email_replace (email : val) (id : string) (data : obj) (d0 : doc) :
  strict_eq (field data "email") email = true ->
  forall coll coll',
    NoDup (map doc_id coll) ->
    by_email email coll = [d0] -> doc_id d0 = id ->
    replace_doc id data coll = Some coll' ->
    by_email email coll' = [mkDoc id data].
Proof.
  intros Hdata. unfold by_email.
  induction coll as [| x coll IH]; simpl; intros coll' Hnd Hq Hid;
    [discriminate |].
  inversion Hnd as [| ? ? Hnot Hnd']; subst.
  destruct (String.eqb_spec (doc_id x) (doc_id d0)) as [Heq | Hne].
  - intros H. injection H as <-. simpl. rewrite Hdata.
    destruct (strict_eq (field (doc_data x) "email") email).
    + injection Hq as _ Hq. now rewrite Hq.
    + exfalso. apply Hnot. rewrite Heq. apply in_map.
      assert (Hin : In d0 (filter (fun d => strict_eq (field (doc_data d) "email") email)
                             coll)) by (rewrite Hq; now left).
      now apply filter_In in Hin as [Hin _].
  - destruct (replace_doc (doc_id d0) data coll) as [rest |] eqn:Er; [| discriminate].
    intros H. injection H as <-. simpl.
    destruct (strict_eq (field (doc_data x) "email") email).
    + injection Hq as -> _. now contradiction Hne.
    + now apply IH.
Qed.

Lemma by_email_insert (email : val) (pos : nat) (d : doc) (coll : list doc) :
  strict_eq (field (doc_data d) "email") email = true ->
  List.length (by_email email (insert_doc pos d coll))
  = S (List.length (by_email email coll)).
Proof.
  intros Hd. unfold by_email, insert_doc.
  rewrite <- (firstn_skipn pos coll) at 3.
  rewrite !filter_app. simpl. rewrite Hd. rewrite !length_app. simpl. lia.
Qed.

Lemma insert_doc_length (pos : nat) (d : doc) (coll : list doc) :
  List.length (insert_doc pos d coll) = S (List.length coll).
Proof.
  unfold insert_doc. rewrite <- (firstn_skipn pos coll) at 3.
  rewrite !length_app. simpl. lia.
Qed.

(** X21.  Updating an avatar that has its document.  When the signed-in
    email has exactly one avatar document, the settings screen's fetch
    takes it as reference, and a successful upload then rewrites that
    document in place: the collection keeps its size, the email still has
    exactly one document, now holding the new URL, and the chat screen's
    own [fetchAvatar] reads that URL. *)
Theorem avatar_update_round_trip
    (s : settings) (env : pick_env) (email uri url : string) (d0 : doc)
    (st : val * list console_entry) :
  NoDup (map doc_id (avatars s)) ->
  by_email (JStr email) (avatars s) = [d0] ->
  s_userEmail s = JStr email ->
  permission env = Ok true -> picker env = Ok (Asset uri) ->
  upload env = Ok url -> write env = Accepted ->
  let s1 := settings_fetchAvatar (Ok (by_email (JStr email) (avatars s))) s in
  let s2 := pickImage env s1 in
  s_docRef s1 = Some (doc_id d0)
  /\ by_email (JStr email) (avatars s2)
     = [mkDoc (doc_id d0) [("email", JStr email); ("avatar", JStr url)]]
  /\ List.length (avatars s2) = List.length (avatars s)
  /\ s_avatar s2 = JStr url
  /\ toasts s2 = (toasts s ++ [("success", "Avatar Updated")])%list
  /\ fst (fetchAvatar (Ok (by_email (JStr email) (avatars s2))) st) = JStr url.
Proof.
  intros Hnd Hq Hmail Hperm Hpick Hup Hwr s1 s2.
  assert (Hin : In d0 (avatars s)).
  { assert (H : In d0 (by_email (JStr email) (avatars s))) by (rewrite Hq; now left).
    now apply filter_In in H as [H _]. }
  set (data := [("email", JStr email); ("avatar", JStr url)]).
  destruct (replace_doc_found (doc_id d0) data (avatars s) d0 Hin eq_refl)
    as [coll' Hrep].
  assert (Hs1 : s1 = mkSettings
                  (if truthy (field (doc_data d0) "avatar")
                   then field (doc_data d0) "avatar" else s_avatar s)
                  (s_imageUrl s) (Some (doc_id d0)) (s_userEmail s)
                  (avatars s) (toasts s) (s_console s)).
  { unfold s1. rewrite Hq. reflexivity. }
  assert (Hs2 : avatars s2 = coll' /\ s_avatar s2 = JStr url
                /\ toasts s2 = (toasts s ++ [("success", "Avatar Updated")])%list).
  { unfold s2, pickImage. rewrite Hperm, Hpick, Hup, Hwr, Hs1. simpl. rewrite Hmail.
    simpl. unfold set_doc. simpl. fold data. rewrite Hrep. auto. }
  destruct Hs2 as (Hav & Havatar & Htoast).
  assert (Hq2 : by_email (JStr email) (avatars s2) = [mkDoc (doc_id d0) data]).
  { rewrite Hav. apply (by_email_replace (JStr email) (doc_id d0) data d0) with (coll := avatars s);
      auto. simpl. apply String.eqb_refl. }
  split; [now rewrite Hs1 |]. split; [exact Hq2 |].
  split; [rewrite Hav; eapply replace_doc_length; eauto |].
  split; [exact Havatar |]. split; [exact Htoast |].
  rewrite Hq2. reflexivity.
Qed.

Lemma avatar_update_round_trip_witness :
  let s1 := settings_fetchAvatar
              (Ok (by_email (JStr "alice@x.com") (avatars settings_sample)))
              settings_sample in
  let s2 := pickImage (pick_ok "new.jpg" "zz" 0) s1 in
  s_docRef s1 = Some "a2"
  /\ by_email (JStr "alice@x.com") (avatars s2)
     = [mkDoc "a2" [("email", JStr "alice@x.com"); ("avatar", JStr "new.jpg")]]
  /\ List.length (avatars s2) = List.length (avatars settings_sample)
  /\ s_avatar s2 = JStr "new.jpg"
  /\ toasts s2 = (toasts settings_sample ++ [("success", "Avatar Updated")])%list
  /\ fst (fetchAvatar (Ok (by_email (JStr "alice@x.com") (avatars s2))) (JNull, []))
     = JStr "new.jpg".
Proof.
  apply (avatar_update_round_trip settings_sample (pick_ok "new.jpg" "zz" 0)
           "alice@x.com" "file:///photo.jpg" "new.jpg"
           (mkDoc "a2" [("email", JStr "alice@x.com"); ("avatar", JStr "old.jpg")])
           (JNull, []));
    try reflexivity.
  simpl. repeat constructor; simpl; intuition discriminate.
Defined.

(** X22.  Uploading without a document reference.  When the signed-in
    email has no avatar document and no reference is held, a successful
    upload creates one document for the email, and the chat screen's
    [fetchAvatar] reads its URL; the reference stays unset, so a second
    successful upload on the same screen creates a second document for
    the same email instead of rewriting the first. *)
Theorem first_uploads_create_documents
    (s : settings) (env1 env2 : pick_env) (email uri1 uri2 url1 url2 : string)
    (st : val * list console_entry) :
  by_email (JStr email) (avatars s) = [] ->
  s_docRef s = None ->
  s_userEmail s = JStr email ->
  permission env1 = Ok true -> picker env1 = Ok (Asset uri1) ->
  upload env1 = Ok url1 -> write env1 = Accepted ->
  permission env2 = Ok true -> picker env2 = Ok (Asset uri2) ->
  upload env2 = Ok url2 -> write env2 = Accepted ->
  let s1 := pickImage env1 s in
  let s2 := pickImage env2 s1 in
  by_email (JStr email) (avatars s1)
    = [mkDoc (new_id env1) [("email", JStr email); ("avatar", JStr url1)]]
  /\ fst (fetchAvatar (Ok (by_email (JStr email) (avatars s1))) st) = JStr url1
  /\ s_docRef s1 = None
  /\ List.length (by_email (JStr email) (avatars s2)) = 2%nat
  /\ List.length (avatars s2) = S (S (List.length (avatars s))).
Proof.
  intros Hq Href Hmail Hp1 Hk1 Hu1 Hw1 Hp2 Hk2 Hu2 Hw2 s1 s2.
  set (d1 := mkDoc (new_id env1) [("email", JStr email); ("avatar", JStr url1)]).
  assert (Hs1 : s1 = mkSettings (JStr url1) (JStr url1) None (JStr email)
                       (insert_doc (new_pos env1) d1 (avatars s))
                       (toasts s ++ [("success", "Avatar Uploaded")])
                       (s_console s)).
  { unfold s1, pickImage. rewrite Hp1, Hk1, Hu1, Hw1, Href, Hmail. reflexivity. }
  assert (Hq1 : by_email (JStr email) (avatars s1) = [d1]).
  { rewrite Hs1. simpl. unfold by_email, insert_doc.
    rewrite filter_app. simpl. rewrite String.eqb_refl.
    assert (Hparts : (filter (fun d => strict_eq (field (doc_data d) "email") (JStr email))
                        (firstn (new_pos env1) (avatars s))
                      ++ filter (fun d => strict_eq (field (doc_data d) "email") (JStr email))
                           (skipn (new_pos env1) (avatars s)))%list = []).
    { rewrite <- filter_app, firstn_skipn. exact Hq. }
    apply app_eq_nil in Hparts as [-> ->]. reflexivity. }
  split; [exact Hq1 |]. split; [now rewrite Hq1 |]. split; [now rewrite Hs1 |].
  assert (Hs2 : avatars s2
                = insert_doc (new_pos env2)
                    (mkDoc (new_id env2) [("email", JStr email); ("avatar", JStr url2)])
                    (avatars s1)).
  { unfold s2, pickImage. rewrite Hp2, Hk2, Hu2, Hw2, Hs1. reflexivity. }
  rewrite Hs2. split.
  - rewrite by_email_insert by (simpl; apply String.eqb_refl). now rewrite Hq1.
  - rewrite Hs1. simpl. now rewrite !insert_doc_length.
Qed.

Lemma first_uploads_create_documents_witness :
  let s1 := pickImage (pick_ok "one.jpg" "n1" 0) settings_newcomer in
  let s2 := pickImage (pick_ok "two.jpg" "n2" 5) s1 in
  by_email (JStr "carol@z.com") (avatars s1)
    = [mkDoc "n1" [("email", JStr "carol@z.com"); ("avatar", JStr "one.jpg")]]
  /\ fst (fetchAvatar (Ok (by_email (JStr "carol@z.com") (avatars s1))) (JNull, []))
     = JStr "one.jpg"
  /\ s_docRef s1 = None
  /\ List.length (by_email (JStr "carol@z.com") (avatars s2)) = 2%nat
  /\ List.length (avatars s2) = S (S (List.length (avatars settings_newcomer))).
Proof.
  apply (first_uploads_create_documents settings_newcomer
           (pick_ok "one.jpg" "n1" 0) (pick_ok "two.jpg" "n2" 5)
           "carol@z.com" "file:///photo.jpg" "file:///photo.jpg" "one.jpg" "two.jpg"
           (JNull, []));
    reflexivity.
Defined.



(* ================================================================== *)
(** ** The empty state *)
(* ================================================================== *)

(** X24.  While the screen shows "No Conversation Selected" (line 229:
    [receiver] is falsy), it holds no subscription: no listener is open
    and no cleanup is pending, whatever happened before. *)
Theorem empty_state_has_no_listener (evs : list event) :
  truthy (receiver (run evs)) = false ->
  listeners (run evs) = [] /\ cleanup (run evs) = None.
Proof.
  intros Hr. destruct (in_order_run evs) as ([_ Hlive _ Hp] & Hl & _).
  assert (Hnil : listeners (run evs) = []).
  { destruct (listeners (run evs)) as [| l ls] eqn:E; auto. exfalso.
    inversion Hp as [| ? ? [_ Hrecv] _]; subst.
    inversion Hl as [| ? ? [_ Ht] _]; subst.
    rewrite Hrecv in Ht. congruence. }
  split; [exact Hnil |].
  rewrite Hnil in Hlive. destruct (cleanup (run evs)); [discriminate | auto].
Qed.

Lemma empty_state_has_no_listener_witness :
  truthy (receiver (run [Commit JNull (JStr "alice@x.com")])) = false
  /\ listeners (run [Commit JNull (JStr "alice@x.com")]) = []
  /\ cleanup (run [Commit JNull (JStr "alice@x.com")]) = None.
Proof.
  split; [reflexivity |].
  exact (empty_state_has_no_listener [Commit JNull (JStr "alice@x.com")] eq_refl).
Defined.
